(** * rados.go: Go bindings for the CEPH RADOS client library (librados)

    A shallow embedding of [src/rados.go].  The native library is reached
    through cgo; here it is an interface ([librados]) whose functions act on
    an abstract [World] (the state of the native library and of the cluster
    behind it).  Every Go function that calls into C becomes a computation in
    the monad [M], which threads the [World] and records the native calls
    that were made, in order, together with what they returned. *)

From Stdlib Require Import ZArith Lia Sorted.
From stdpp Require Import gmap strings list.

Local Open Scope Z_scope.

(** ** C and Go scalar types *)

Abbreviation byte := Byte.byte.

(** [C.int] is a 32-bit two's-complement integer. *)
Definition C_INT_MIN : Z := - 2 ^ 31.
Definition C_INT_MAX : Z := 2 ^ 31 - 1.

Definition is_C_int (z : Z) : Prop := C_INT_MIN <= z <= C_INT_MAX.

Definition wrap_C_int (z : Z) : Z := (z + 2 ^ 31) mod 2 ^ 32 - 2 ^ 31.

(** [-cerr] on a [C.int]: negation wraps around at [C_INT_MIN]. *)
Definition neg_C_int (cerr : Z) : Z := wrap_C_int (- cerr).

(** [int(c)] for [c : C.int]: Go's [int] has at least 32 bits, the
    conversion keeps the value. *)
Definition int (c : Z) : Z := c.

(** [uint64(x)]: conversion to an unsigned 64-bit integer. *)
Definition uint64 (x : Z) : Z := x mod 2 ^ 64.

Definition is_uint64 (x : Z) : Prop := 0 <= x < 2 ^ 64.

(** [C.rados_t] is an opaque pointer; [0] is the nil pointer. *)
Definition rados_t : Type := Z.

(** A Go [error]: [None] is [nil], [Some msg] an error whose text is [msg]. *)
Definition error : Type := option string.

(** [fmt.Errorf] with one or two [%s] verbs, as the source uses it. *)
Definition Errorf1 (pre s : string) : error := Some (pre +:+ s).
Definition Errorf2 (pre s1 mid s2 : string) : error :=
  Some (pre +:+ s1 +:+ mid +:+ s2).

(** [C.CString] copies a Go string into C memory; [C.GoString] copies a C
    string back.  The copies hold the same characters. *)
Definition CString (s : string) : string := s.
Definition GoString (s : string) : string := s.

(** ** Byte slices *)

(** [make([]byte, n)]: [n] zero bytes. *)
Definition make_bytes (n : Z) : list byte := replicate (Z.to_nat n) Byte.x00.

Definition len {A} (l : list A) : Z := Z.of_nat (length l).

(** [byteSliceToBuffer]: the C view of a byte slice and its size.  For an
    empty slice the pointer is that of the slice header and the size is 0;
    no byte of it is ever written. *)
Definition byteSliceToBuffer (data : list byte) : list byte * Z :=
  if 0 <? len data then (data, len data) else ([], 0).

(** What a buffer holds after native code stored [written] at its start:
    the slice keeps its length. *)
Definition c_store (buf written : list byte) : list byte :=
  take (length buf) (written ++ drop (length written) buf).

(** [bytes.Split(s, []byte{sep})]: the segments of [s] between occurrences
    of the one-byte separator; [k] separators give [k + 1] segments. *)
Fixpoint bytes_Split (s : list byte) (sep : byte) : list (list byte) :=
  match s with
  | [] => [[]]
  | b :: s' =>
      if Byte.eqb b sep then [] :: bytes_Split s' sep
      else match bytes_Split s' sep with
           | seg :: segs => (b :: seg) :: segs
           | [] => [[b]]
           end
  end.

(** [bytes.Join(segs, []byte{sep})]: the segments with the separator
    between them. *)
Fixpoint bytes_Join (segs : list (list byte)) (sep : byte) : list byte :=
  match segs with
  | [] => []
  | seg :: rest =>
      match rest with
      | [] => seg
      | _ :: _ => seg ++ sep :: bytes_Join rest sep
      end
  end.

(** The loop at the end of [ListPools]: empty segments are skipped, the
    others are appended as strings. *)
Definition collect_pools (poolsBuf : list (list byte)) : list string :=
  fold_left
    (fun pools seg =>
       if len seg =? 0 then pools
       else pools ++ [String.string_of_list_byte seg])
    poolsBuf [].

Definition parse_pools (buf : list byte) : list string :=
  collect_pools (bytes_Split buf Byte.x00).

(** ** The native call surface *)

(** Modelled from the spec: [struct rados_cluster_stat_t] is declared in
    [rados/librados.h]; its four counters are unsigned integers named
    [kb], [kb_used], [kb_avail] and [num_objects]. *)
Record rados_cluster_stat_t : Type := {
  kb : Z;
  kb_used : Z;
  kb_avail : Z;
  num_objects : Z
}.

Definition is_cluster_stat (c : rados_cluster_stat_t) : Prop :=
  is_uint64 (kb c) /\ is_uint64 (kb_used c) /\
  is_uint64 (kb_avail c) /\ is_uint64 (num_objects c).

(** The functions of librados (and libc's [strerror]) that the package
    calls.  Each takes the [World] before the call and gives the [World]
    after it; a [C.int] status comes first in the result.
    - [rados_create] also gives the handle stored through its out-pointer;
    - [rados_conf_read_file] takes [None] for a nil path;
    - [rados_cluster_stat] also gives the struct after the call;
    - [rados_pool_list] is told the buffer size and also gives the bytes it
      stored at the start of the buffer. *)
Record librados (World : Type) : Type := {
  rados_create : World -> Z * rados_t * World;
  rados_conf_read_file : rados_t -> option string -> World -> Z * World;
  rados_connect : rados_t -> World -> Z * World;
  rados_cluster_stat : rados_t -> World -> Z * rados_cluster_stat_t * World;
  rados_shutdown : rados_t -> World -> World;
  rados_pool_create : rados_t -> string -> World -> Z * World;
  rados_pool_delete : rados_t -> string -> World -> Z * World;
  rados_pool_list : rados_t -> Z -> World -> Z * list byte * World;
  c_strerror : Z -> string
}.

Arguments rados_create {World}.
Arguments rados_conf_read_file {World}.
Arguments rados_connect {World}.
Arguments rados_cluster_stat {World}.
Arguments rados_shutdown {World}.
Arguments rados_pool_create {World}.
Arguments rados_pool_delete {World}.
Arguments rados_pool_list {World}.
Arguments c_strerror {World}.

(** A native call as it happened: its arguments and its status. *)
Inductive native_call : Type :=
| call_create (status : Z) (handle : rados_t)
| call_conf_read_file (h : rados_t) (path : option string) (status : Z)
| call_connect (h : rados_t) (status : Z)
| call_cluster_stat (h : rados_t) (status : Z)
| call_shutdown (h : rados_t)
| call_pool_create (h : rados_t) (name : string) (status : Z)
| call_pool_delete (h : rados_t) (name : string) (status : Z)
| call_pool_list (h : rados_t) (size : Z) (status : Z).

(** The status a call returned; [rados_shutdown] returns nothing. *)
Definition status_of (ev : native_call) : option Z :=
  match ev with
  | call_create c _ => Some c
  | call_conf_read_file _ _ c => Some c
  | call_connect _ c => Some c
  | call_cluster_stat _ c => Some c
  | call_shutdown _ => None
  | call_pool_create _ _ c => Some c
  | call_pool_delete _ _ c => Some c
  | call_pool_list _ _ c => Some c
  end.

Definition failed (ev : native_call) : Prop :=
  exists c, status_of ev = Some c /\ c < 0.

(** ** The Rados handle *)

Record Rados : Type := {
  rados : rados_t;
  size : Z;
  used : Z;
  avail : Z;
  nObjects : Z
}.

(** [&Rados{}]: every field has its zero value. *)
Definition Rados_zero : Rados :=
  {| rados := 0; size := 0; used := 0; avail := 0; nObjects := 0 |}.

Definition Size (r : Rados) : Z := size r.
Definition Used (r : Rados) : Z := used r.
Definition Avail (r : Rados) : Z := avail r.
Definition NObjects (r : Rados) : Z := nObjects r.

Section Package.
Context {World : Type} (lib : librados World).

(** Computations that call into C: from the world before to a result,
    the world after and the native calls made. *)
Definition M (A : Type) : Type := World -> A * World * list native_call.

#[local] Instance M_ret : MRet M := fun A a w => (a, w, []).
#[local] Instance M_bind : MBind M := fun A B f m w =>
  let '(a, w1, t1) := m w in
  let '(b, w2, t2) := f a w1 in
  (b, w2, t1 ++ t2).

(** *** The [C.] name space *)

Definition C_rados_create : M (Z * rados_t) := fun w =>
  let '(cerr, h, w') := rados_create lib w in
  ((cerr, h), w', [call_create cerr h]).

Definition C_rados_conf_read_file (h : rados_t) (path : option string)
  : M Z := fun w =>
  let '(cerr, w') := rados_conf_read_file lib h path w in
  (cerr, w', [call_conf_read_file h path cerr]).

Definition C_rados_connect (h : rados_t) : M Z := fun w =>
  let '(cerr, w') := rados_connect lib h w in
  (cerr, w', [call_connect h cerr]).

Definition C_rados_cluster_stat (h : rados_t)
  : M (Z * rados_cluster_stat_t) := fun w =>
  let '(cerr, cstat, w') := rados_cluster_stat lib h w in
  ((cerr, cstat), w', [call_cluster_stat h cerr]).

Definition C_rados_shutdown (h : rados_t) : M unit := fun w =>
  (tt, rados_shutdown lib h w, [call_shutdown h]).

Definition C_rados_pool_create (h : rados_t) (cname : string) : M Z :=
  fun w =>
  let '(cerr, w') := rados_pool_create lib h cname w in
  (cerr, w', [call_pool_create h cname cerr]).

Definition C_rados_pool_delete (h : rados_t) (cname : string) : M Z :=
  fun w =>
  let '(cerr, w') := rados_pool_delete lib h cname w in
  (cerr, w', [call_pool_delete h cname cerr]).

(** The call is given the C view of the buffer and its size; the second
    component of the result is the buffer after the call. *)
Definition C_rados_pool_list (h : rados_t) (cdata : list byte)
    (cdatalen : Z) : M (Z * list byte) := fun w =>
  let '(cbufsize, written, w') := rados_pool_list lib h cdatalen w in
  ((cbufsize, c_store cdata written), w', [call_pool_list h cdatalen cbufsize]).

(** *** strerror *)

Definition strerror (cerr : Z) : string :=
  GoString (c_strerror lib (neg_C_int cerr)).

(** *** Stat, Release *)

Definition Stat (r : Rados) : M (error * Rados) :=
  '(cerr, cstat) ← C_rados_cluster_stat (rados r);
  if cerr <? 0 then
    mret (Errorf1 "RADOS cluster stat: " (strerror cerr), r)
  else
    let r := {| rados := rados r; size := uint64 (kb cstat);
                used := used r; avail := avail r;
                nObjects := nObjects r |} in
    let r := {| rados := rados r; size := size r;
                used := uint64 (kb_used cstat); avail := avail r;
                nObjects := nObjects r |} in
    let r := {| rados := rados r; size := size r; used := used r;
                avail := uint64 (kb_avail cstat);
                nObjects := nObjects r |} in
    let r := {| rados := rados r; size := size r; used := used r;
                avail := avail r;
                nObjects := uint64 (num_objects cstat) |} in
    mret (None, r).

Definition Release (r : Rados) : M error :=
  C_rados_shutdown (rados r);;
  mret None.

(** *** New, NewDefault *)

Definition New (configFile : string) : M (option Rados * error) :=
  let r := Rados_zero in
  '(cerr, h) ← C_rados_create;
  let r := {| rados := h; size := size r; used := used r;
              avail := avail r; nObjects := nObjects r |} in
  if cerr <? 0 then
    mret (None, Errorf1 "RADOS create: " (strerror cerr))
  else
    cerr ← (if decide (configFile = EmptyString) then
               C_rados_conf_read_file (rados r) None
             else
               let cconfigFile := CString configFile in
               C_rados_conf_read_file (rados r) (Some cconfigFile));
    if cerr <? 0 then
      mret (None, Errorf1 "RADOS config: " (strerror cerr))
    else
      cerr ← C_rados_connect (rados r);
      if cerr <? 0 then
        mret (None, Errorf1 "RADOS connect: " (strerror cerr))
      else
        '(err, r) ← Stat r;
        match err with
        | Some _ => Release r;; mret (None, err)
        | None => mret (Some r, None)
        end.

Definition NewDefault : M (option Rados * error) :=
  '(r, err) ← New EmptyString;
  mret (r, err).

(** *** Pool administration *)

Definition CreatePool (r : Rados) (poolName : string) : M error :=
  let cname := CString poolName in
  cerr ← C_rados_pool_create (rados r) cname;
  if cerr <? 0 then
    mret (Errorf2 "RADOS pool create " poolName ": " (strerror cerr))
  else mret None.

Definition DeletePool (r : Rados) (poolName : string) : M error :=
  let cname := CString poolName in
  cerr ← C_rados_pool_delete (rados r) cname;
  if cerr <? 0 then
    mret (Errorf2 "RADOS pool delete " poolName ": " (strerror cerr))
  else mret None.


(** *** ListPools *)

(** The retry loop of [ListPools].  The Go loop has no bound; [fuel] is the
    number of iterations the embedding follows, and [None] says that the
    loop was still running when the fuel ran out.  A finished loop gives the
    buffer it broke out with, or the error it returned with. *)
Fixpoint ListPools_loop (fuel : nat) (r : Rados) (bufSize : Z)
  : M (option (list byte + error)) :=
  match fuel with
  | O => mret None
  | S fuel' =>
      let buf := make_bytes bufSize in
      let '(cdata, cdatalen) := byteSliceToBuffer buf in
      '(cbufsize, buf) ← C_rados_pool_list (rados r) cdata cdatalen;
      if cbufsize <? 0 then
        mret (Some (inr (Errorf1 "RADOS list pools: " (strerror cbufsize))))
      else if bufSize <? int cbufsize then
        ListPools_loop fuel' r (int cbufsize)
      else
        mret (Some (inl buf))
  end.

(** How [ListPools] ends once the loop is over: it parses the buffer, or
    passes the error on with no pools. *)
Definition ListPools_finish (res : list byte + error) : list string * error :=
  match res with
  | inl buf => (parse_pools buf, None)
  | inr err => ([], err)
  end.

Definition ListPools_fuel (fuel : nat) (r : Rados)
  : M (option (list string * error)) :=
  let bufSize := 256 in
  res ← ListPools_loop fuel r bufSize;
  match res with
  | None => mret None
  | Some res => mret (Some (ListPools_finish res))
  end.

(** [ListPools] returns [res], leaving the world [w'] after the native
    calls [tr]: some number of iterations is enough for the loop. *)
Definition ListPools_returns (r : Rados) (w : World)
    (res : list string * error) (w' : World) (tr : list native_call) : Prop :=
  exists fuel, ListPools_fuel fuel r w = (Some res, w', tr).

(** *** The size-negotiation protocol, as the specification words it

    "Invoke the native call with the current buffer.  It returns either a
    negative status (failure: map and abort) or a non-negative count, the
    number of bytes required to hold the full result.  If the required
    count exceeds the current buffer size, reallocate a buffer of exactly
    the required size and retry.  Otherwise the buffer now holds the
    complete result; parse and return." *)
Inductive BufferNegotiator (r : Rados)
  : Z -> World -> list string * error -> World -> list native_call -> Prop :=
| negotiate_abort bufSize w status written w' :
    rados_pool_list lib (rados r) bufSize w = (status, written, w') ->
    status < 0 ->
    BufferNegotiator r bufSize w
      ([], Some ("RADOS list pools: " +:+ c_strerror lib (neg_C_int status)))
      w' [call_pool_list (rados r) bufSize status]
| negotiate_retry bufSize w required written w' res w'' tr :
    rados_pool_list lib (rados r) bufSize w = (required, written, w') ->
    0 <= required ->
    bufSize < required ->
    BufferNegotiator r required w' res w'' tr ->
    BufferNegotiator r bufSize w res w''
      (call_pool_list (rados r) bufSize required :: tr)
| negotiate_done bufSize w required written w' :
    rados_pool_list lib (rados r) bufSize w = (required, written, w') ->
    0 <= required <= bufSize ->
    BufferNegotiator r bufSize w
      (parse_pools (c_store (make_bytes bufSize) written), None)
      w' [call_pool_list (rados r) bufSize required].

(** The native contract the retry loop relies on: once the pool-list call
    has reported a required byte count, a call with a buffer at least that
    large returns a non-negative count that fits the buffer. *)
Definition honours_reported_size (h : rados_t) : Prop :=
  forall w bufSize required written w',
    rados_pool_list lib h bufSize w = (required, written, w') ->
    bufSize < required ->
    forall bufSize', required <= bufSize' ->
      0 <= (rados_pool_list lib h bufSize' w').1.1 <= bufSize'.

(** *** What an error message is expected to say *)

(** The operation a native call belongs to, with the identifier it was
    about. *)
Definition operation_label (ev : native_call) : string :=
  match ev with
  | call_create _ _ => "RADOS create"
  | call_conf_read_file _ _ _ => "RADOS config"
  | call_connect _ _ => "RADOS connect"
  | call_cluster_stat _ _ => "RADOS cluster stat"
  | call_shutdown _ => "RADOS shutdown"
  | call_pool_create _ name _ => "RADOS pool create " +:+ name
  | call_pool_delete _ name _ => "RADOS pool delete " +:+ name
  | call_pool_list _ _ _ => "RADOS list pools"
  end.

(** Every negative status among the calls [tr] is what the error [err]
    reports: operation, identifier, and the text libc has for the negated
    status. *)
Definition surfaced (tr : list native_call) (err : error) : Prop :=
  forall ev status,
    In ev tr -> status_of ev = Some status -> status < 0 ->
    err = Some (operation_label ev +:+ ": " +:+
                c_strerror lib (neg_C_int status)).

End Package.

Arguments M World A : clear implicits.

(** ** Native libraries to run the package against *)

(** libc's table, as far as the examples need it. *)
Definition libc_strerror (errnum : Z) : string :=
  if errnum =? 2 then "No such file or directory"
  else if errnum =? 5 then "Input/output error"
  else if errnum =? 17 then "File exists"
  else "Unknown error".

(** A cluster without state of its own: every entry point answers from the
    given table. *)
Record script : Type := {
  on_create : Z * rados_t;
  on_conf_read_file : option string -> Z;
  on_connect : Z;
  on_cluster_stat : Z * rados_cluster_stat_t;
  on_pool_create : string -> Z;
  on_pool_delete : string -> Z;
  on_pool_list : Z -> Z * list byte
}.

Definition scripted (s : script) : librados unit := {|
  rados_create := fun w => (on_create s, w);
  rados_conf_read_file := fun _ path w => (on_conf_read_file s path, w);
  rados_connect := fun _ w => (on_connect s, w);
  rados_cluster_stat := fun _ w => (on_cluster_stat s, w);
  rados_shutdown := fun _ w => w;
  rados_pool_create := fun _ name w => (on_pool_create s name, w);
  rados_pool_delete := fun _ name w => (on_pool_delete s name, w);
  rados_pool_list := fun _ size w => (on_pool_list s size, w);
  c_strerror := libc_strerror
|}.

Definition stat_example : rados_cluster_stat_t :=
  {| kb := 1048576; kb_used := 4096; kb_avail := 1044480; num_objects := 7 |}.

(** The pool list "data", "metadata", "rbd": NUL-terminated names and a
    closing NUL, 19 bytes. *)
Definition three_pools : list byte :=
  String.list_byte_of_string "data" ++ [Byte.x00] ++
  String.list_byte_of_string "metadata" ++ [Byte.x00] ++
  String.list_byte_of_string "rbd" ++ [Byte.x00; Byte.x00].

(** A healthy cluster: a missing configuration file is the only failure. *)
Definition healthy : script := {|
  on_create := (0, 4096);
  on_conf_read_file := fun path =>
    match path with
    | Some "path that does not exist" => -2
    | _ => 0
    end;
  on_connect := 0;
  on_cluster_stat := (0, stat_example);
  on_pool_create := fun name => if decide (name = "rbd") then -17 else 0;
  on_pool_delete := fun name => if decide (name = "rbd") then 0 else -2;
  on_pool_list := fun size => (19, if 19 <=? size then three_pools else [])
|}.

(** The same cluster when the statistics cannot be fetched. *)
Definition stat_fails : script := {|
  on_create := on_create healthy;
  on_conf_read_file := on_conf_read_file healthy;
  on_connect := on_connect healthy;
  on_cluster_stat := (-5, {| kb := 0; kb_used := 0; kb_avail := 0;
                            num_objects := 0 |});
  on_pool_create := on_pool_create healthy;
  on_pool_delete := on_pool_delete healthy;
  on_pool_list := on_pool_list healthy
|}.

(** A cluster with 300 bytes of pool names: the first buffer is too small. *)
Definition long_name : list byte := replicate 298 Byte.x78.

Definition big_list : script := {|
  on_create := on_create healthy;
  on_conf_read_file := on_conf_read_file healthy;
  on_connect := on_connect healthy;
  on_cluster_stat := on_cluster_stat healthy;
  on_pool_create := on_pool_create healthy;
  on_pool_delete := on_pool_delete healthy;
  on_pool_list := fun size =>
    (300, if 300 <=? size then long_name ++ [Byte.x00; Byte.x00] else [])
|}.

(** A native library that reports the same pool name twice. *)
Definition twice : script := {|
  on_create := on_create healthy;
  on_conf_read_file := on_conf_read_file healthy;
  on_connect := on_connect healthy;
  on_cluster_stat := on_cluster_stat healthy;
  on_pool_create := on_pool_create healthy;
  on_pool_delete := on_pool_delete healthy;
  on_pool_list := fun size =>
    (5, String.list_byte_of_string "a" ++ [Byte.x00] ++
        String.list_byte_of_string "a" ++ [Byte.x00; Byte.x00])
|}.

(** A native library that asks for one more byte until the buffer has
    [256 + n] bytes, and has no pool to list. *)
Definition one_more_byte (n : nat) : script := {|
  on_create := on_create healthy;
  on_conf_read_file := on_conf_read_file healthy;
  on_connect := on_connect healthy;
  on_cluster_stat := on_cluster_stat healthy;
  on_pool_create := on_pool_create healthy;
  on_pool_delete := on_pool_delete healthy;
  on_pool_list := fun size =>
    (if (0 <=? size) && (size <? 256 + Z.of_nat n) then size + 1 else 0, [])
|}.

(** Every count the pool-list call of [lib] returns is a [C.int]. *)
Definition pool_list_C_int {World} (lib : librados World) : Prop :=
  forall h size w, is_C_int (rados_pool_list lib h size w).1.1.

(** ** The pool-scoped Context *)

Module PoolContext.

(** Modelled from the spec: the Context type and its operations [Create],
    [Stat], [Put], [Get], [Open] and [Remove] live in a source file of the
    package that is not under src/ (only their test, [Test_RadosObject], is).
    The definitions follow section 4.3 of the specification.  The pool the
    Context is bound to is a finite map from object names to contents, and
    the operations are those of runs in which the cluster is reachable: an
    error is returned only where the specification names its cause. *)
Abbreviation objects := (gmap string (list byte)).

Inductive ctx_error : Type :=
| IOError
| NotFoundError.

(** Modelled from the spec: "ObjectInfo (value type): name, size: a
    non-negative integer byte count". *)
Record ObjectInfo : Type := {
  Name : string;
  Size : Z
}.

(** Modelled from the spec: an open Object "exposes cached name and
    last-known size". *)
Record Object : Type := {
  object_name : string;
  object_size : Z
}.

(** Modelled from the spec: "creates a new zero-length object at name";
    a pre-existing object is "treated as an IOError". *)
Definition Create (name : string) (p : objects)
  : option ctx_error * objects :=
  match p !! name with
  | Some _ => (Some IOError, p)
  | None => (None, <[name := []]> p)
  end.

(** Modelled from the spec: "returns the current name/size of the object;
    fails if the object does not exist". *)
Definition Stat (name : string) (p : objects)
  : (ObjectInfo + ctx_error) * objects :=
  match p !! name with
  | Some d => (inl {| Name := name; Size := len d |}, p)
  | None => (inr NotFoundError, p)
  end.

(** Modelled from the spec: "writes the full byte content to the object,
    overwriting any existing content and truncating the object to exactly
    len(data) bytes". *)
Definition Put (name : string) (data : list byte) (p : objects)
  : option ctx_error * objects :=
  (None, <[name := data]> p).

(** Modelled from the spec: "reads the object's full content.  Internally
    requires knowing the object's size (a Stat-equivalent) before or during
    the read to size the destination buffer"; the read fills a buffer of
    that size from the start of the object. *)
Definition Get (name : string) (p : objects)
  : (list byte + ctx_error) * objects :=
  match Stat name p with
  | (inl info, p) =>
      let buf := make_bytes (Size info) in
      match p !! name with
      | Some d => (inl (c_store buf (take (length buf) d)), p)
      | None => (inr NotFoundError, p)
      end
  | (inr e, p) => (inr e, p)
  end.

(** Modelled from the spec: "opening a name that does not yet exist
    succeeds and implicitly creates a zero-length object". *)
Definition Open (name : string) (p : objects)
  : (Object + ctx_error) * objects :=
  match p !! name with
  | Some d => (inl {| object_name := name; object_size := len d |}, p)
  | None => (inl {| object_name := name; object_size := 0 |}, <[name := []]> p)
  end.

(** Modelled from the spec: "deletes the object; fails if it does not
    exist". *)
Definition Remove (name : string) (p : objects)
  : option ctx_error * objects :=
  match p !! name with
  | Some _ => (None, delete name p)
  | None => (Some NotFoundError, p)
  end.

End PoolContext.

(** ** The pool-list format *)

(** The bytes [rados_pool_list] stores for the pools [names], as the comment
    in [ListPools] has it: "an array strings separated by NULL bytes with
    two NULL bytes at the end".  Every name is followed by a NUL byte, and
    one more NUL byte closes the list. *)
Definition pool_list_body (names : list string) : list byte :=
  concat
    ((fun name => String.list_byte_of_string name ++ [Byte.x00]) <$> names).

Definition pool_list_blob (names : list string) : list byte :=
  pool_list_body names ++ [Byte.x00].

(** A name the format can carry: not empty, no NUL byte in it. *)
Definition valid_pool_name (name : string) : Prop :=
  name ≠ EmptyString /\ Byte.x00 ∉ String.list_byte_of_string name.

(** A native library that lists the pools [names] in every world of [P]:
    the call returns the size of their blob, stores the blob when the
    buffer has room for it, and leaves a world of [P]. *)
Definition serves_pool_list {World} (lib : librados World) (h : rados_t)
    (names : list string) (P : World -> Prop) : Prop :=
  forall w size,
    P w ->
    let '(status, written, w') := rados_pool_list lib h size w in
    status = len (pool_list_blob names) /\
    (status <= size -> written = pool_list_blob names) /\
    P w'.

(** The handle a native call was made on ([rados_create]: the one it
    stored). *)
Definition handle_of (ev : native_call) : rados_t :=
  match ev with
  | call_create _ h => h
  | call_conf_read_file h _ _ => h
  | call_connect h _ => h
  | call_cluster_stat h _ => h
  | call_shutdown h => h
  | call_pool_create h _ _ => h
  | call_pool_delete h _ _ => h
  | call_pool_list h _ _ => h
  end.

(** The buffer size a pool-list call was given. *)
Definition pool_list_size (ev : native_call) : option Z :=
  match ev with
  | call_pool_list _ size _ => Some size
  | _ => None
  end.


(** ** The tests of the package *)

Module rados_test.

(** [testing.T], as far as the tests use it: whether the test has failed,
    and the texts it has logged. *)
Record T : Type := {
  Failed : bool;
  output : list string
}.

Definition T_zero : T := {| Failed := false; output := [] |}.

(** How the body of a test ends: it returns, it is stopped by [t.Fatalf]
    ([runtime.Goexit]), or it panics on a nil pointer. *)
Inductive outcome (A : Type) : Type :=
| Returned (a : A)
| Goexit
| NilPanic.

Arguments Returned {A} a.
Arguments Goexit {A}.
Arguments NilPanic {A}.

Section Tests.
Context {World : Type} (lib : librados World).

(** [fmt.Sprintf] belongs to Go's library and is a parameter here: some
    text for a format and its parameters. *)
Context (Sprintf : string -> list string -> string).

(** A test body: from the [T] and the world before to how it ends, the
    [T] and the world after, and the native calls made. *)
Definition TM (A : Type) : Type :=
  T -> World -> outcome A * T * World * list native_call.

#[local] Instance TM_ret : MRet TM := fun A a t w => (Returned a, t, w, []).
#[local] Instance TM_bind : MBind TM := fun A B f m t w =>
  let '(o, t1, w1, tr1) := m t w in
  match o with
  | Returned a =>
      let '(o2, t2, w2, tr2) := f a t1 w1 in (o2, t2, w2, tr1 ++ tr2)
  | Goexit => (Goexit, t1, w1, tr1)
  | NilPanic => (NilPanic, t1, w1, tr1)
  end.

(** A call into the package from a test. *)
Definition call {A} (m : M World A) : TM A := fun t w =>
  let '(a, w', tr) := m w in (Returned a, t, w', tr).

(** A method call through a [*Rados]: a nil receiver panics where the
    method reads a field. *)
Definition on_handle {A} (rados : option Rados) (method : Rados -> M World A)
  : TM A :=
  match rados with
  | Some r => call (method r)
  | None => fun t w => (NilPanic, t, w, [])
  end.

(** [t.Errorf]: log the text and mark the test failed. *)
Definition t_Errorf (format : string) (args : list string) : TM unit :=
  fun t w =>
  (Returned tt,
   {| Failed := true; output := output t ++ [Sprintf format args] |}, w, []).

(** [t.Fatalf]: the same, and the test stops there. *)
Definition t_Fatalf (format : string) (args : list string) : TM unit :=
  fun t w =>
  (Goexit,
   {| Failed := true; output := output t ++ [Sprintf format args] |}, w, []).

Definition errorOnError (e : error) (message : string)
    (parameters : list string) : TM unit :=
  match e with
  | Some text => t_Errorf "%v : %v" [text; Sprintf message parameters]
  | None => mret tt
  end.

Definition fatalOnError (e : error) (message : string)
    (parameters : list string) : TM unit :=
  match e with
  | Some text => t_Fatalf "%v : %v" [text; Sprintf message parameters]
  | None => mret tt
  end.

Definition Test_RadosNew : TM unit :=
  '(rados, err) ← call (New lib EmptyString);
  fatalOnError err "New" [];;
  err ← on_handle rados (Release lib);
  fatalOnError err "Release" [];;
  '(rados, err) ← call (New lib "path that does not exist");
  match err with
  | None =>
      t_Errorf "New should have failed" [];;
      on_handle rados (Release lib);;
      mret tt
  | Some _ => mret tt
  end.

End Tests.

End rados_test.

(** * Properties *)

(** ** Scalars and byte slices *)

Lemma neg_C_int_exact (c : Z) :
  C_INT_MIN < c <= C_INT_MAX -> neg_C_int c = - c.
Proof.
  unfold neg_C_int, wrap_C_int, C_INT_MIN, C_INT_MAX. intros Hc.
  rewrite Z.mod_small by lia. lia.
Qed.

Lemma neg_C_int_min : neg_C_int C_INT_MIN = C_INT_MIN.
Proof. reflexivity. Qed.

Lemma uint64_exact (x : Z) : is_uint64 x -> uint64 x = x.
Proof. unfold is_uint64, uint64. intros Hx. apply Z.mod_small. lia. Qed.

Lemma len_make_bytes (n : Z) : 0 <= n -> len (make_bytes n) = n.
Proof.
  intros Hn. unfold len, make_bytes. rewrite length_replicate. lia.
Qed.

Lemma byteSliceToBuffer_make (n : Z) :
  0 < n -> byteSliceToBuffer (make_bytes n) = (make_bytes n, n).
Proof.
  intros Hn. unfold byteSliceToBuffer.
  rewrite len_make_bytes by lia.
  destruct (0 <? n) eqn:E; [reflexivity | lia].
Qed.

Lemma c_store_length (buf written : list byte) :
  length (c_store buf written) = length buf.
Proof.
  unfold c_store. rewrite length_take, length_app, length_drop. lia.
Qed.

Lemma c_store_all (buf d : list byte) :
  length buf = length d -> c_store buf d = d.
Proof.
  intros Hl. unfold c_store.
  rewrite <- Hl, drop_all, app_nil_r, Hl. apply firstn_all.
Qed.

(** ** The Context model *)

(** C1.  For every object name and every payload [d], the empty one
    included, [Put name d] succeeds and a following [Get name] on the same
    Context returns exactly [d]: the same bytes, neither truncated nor
    padded; the read changes nothing in the pool. *)
Theorem Put_then_Get (name : string) (d : list byte)
    (p : PoolContext.objects) :
  let '(err, p') := PoolContext.Put name d p in
  err = None /\ PoolContext.Get name p' = (inl d, p').
Proof.
  unfold PoolContext.Put, PoolContext.Get, PoolContext.Stat.
  split; [reflexivity |].
  assert (Hl : length (make_bytes (len d)) = length d).
  { unfold make_bytes, len. rewrite length_replicate. lia. }
  rewrite lookup_insert_eq. cbn [PoolContext.Size].
  rewrite lookup_insert_eq, Hl, take_ge by lia.
  rewrite c_store_all by exact Hl. reflexivity.
Qed.

(** C8.  [Open] on a name that does not exist yet succeeds and creates a
    zero-length object: a [Stat] of that name right after it succeeds and
    reports size 0. *)
Theorem Open_fresh_creates (name : string) (p : PoolContext.objects) :
  p !! name = None ->
  exists obj p',
    PoolContext.Open name p = (inl obj, p') /\
    PoolContext.object_name obj = name /\
    PoolContext.Stat name p' =
      (inl {| PoolContext.Name := name; PoolContext.Size := 0 |}, p').
Proof.
  intros Hfresh. unfold PoolContext.Open, PoolContext.Stat.
  rewrite Hfresh. eexists _, _. split; [reflexivity |].
  split; [reflexivity |].
  rewrite lookup_insert_eq. reflexivity.
Qed.

Lemma Open_fresh_creates_witness :
  (∅ : PoolContext.objects) !! "test-object2" = None /\
  exists obj p',
    PoolContext.Open "test-object2" ∅ = (inl obj, p') /\
    PoolContext.object_name obj = "test-object2" /\
    PoolContext.Stat "test-object2" p' =
      (inl {| PoolContext.Name := "test-object2"; PoolContext.Size := 0 |}, p').
Proof.
  split; [reflexivity |].
  apply (Open_fresh_creates "test-object2" ∅). reflexivity.
Defined.

(** The scenario of [Test_RadosObject], step by step, on an empty pool. *)
Example Test_RadosObject :
  let name := "test-object" in
  let name2 := "test-object2" in
  let data := String.list_byte_of_string "test data" in
  let '(e1, p) := PoolContext.Create name ∅ in
  let '(s1, p) := PoolContext.Stat name p in
  let '(e2, p) := PoolContext.Put name data p in
  let '(s2, p) := PoolContext.Stat name p in
  let '(g, p) := PoolContext.Get name p in
  let '(o1, p) := PoolContext.Open name p in
  let '(o2, p) := PoolContext.Open name2 p in
  let '(s3, p) := PoolContext.Stat name2 p in
  let '(e3, p) := PoolContext.Remove name p in
  let '(e4, p) := PoolContext.Remove name2 p in
  let '(s4, p) := PoolContext.Stat name p in
  let '(s5, p) := PoolContext.Stat name2 p in
  e1 = None /\
  s1 = inl {| PoolContext.Name := name; PoolContext.Size := 0 |} /\
  e2 = None /\
  s2 = inl {| PoolContext.Name := name; PoolContext.Size := 9 |} /\
  g = inl data /\
  o1 = inl {| PoolContext.object_name := name;
              PoolContext.object_size := 9 |} /\
  o2 = inl {| PoolContext.object_name := name2;
              PoolContext.object_size := 0 |} /\
  s3 = inl {| PoolContext.Name := name2; PoolContext.Size := 0 |} /\
  e3 = None /\ e4 = None /\
  s4 = inr PoolContext.NotFoundError /\
  s5 = inr PoolContext.NotFoundError.
Proof. vm_compute. repeat split. Qed.

(** ** The cluster handle *)

Ltac unfold_native :=
  unfold C_rados_create, C_rados_conf_read_file, C_rados_connect,
    C_rados_cluster_stat, C_rados_shutdown, C_rados_pool_create,
    C_rados_pool_delete, C_rados_pool_list.

Ltac unfold_M := unfold mbind, mret, M_bind, M_ret.

Ltac case_status :=
  match goal with
  | |- context [?c <? 0] =>
      let E := fresh "Hstatus" in
      destruct (Z.ltb_spec c 0) as [E | E]
  end.

Section PackageProperties.
Context {World : Type} (lib : librados World).

Lemma Stat_run (r : Rados) (w : World) :
  Stat lib r w =
    let '(cerr, cstat, w') := rados_cluster_stat lib (rados r) w in
    (if cerr <? 0 then
       (Some ("RADOS cluster stat: " +:+ strerror lib cerr), r)
     else
       (None, {| rados := rados r; size := uint64 (kb cstat);
                 used := uint64 (kb_used cstat);
                 avail := uint64 (kb_avail cstat);
                 nObjects := uint64 (num_objects cstat) |}),
     w', [call_cluster_stat (rados r) cerr]).
Proof.
  unfold Stat. unfold_M. unfold_native.
  destruct (rados_cluster_stat lib (rados r) w) as [[cerr cstat] w'].
  destruct (cerr <? 0); reflexivity.
Qed.

(** C6.  [Stat] updates the cached statistics all at once.  When the native
    call returns a negative status, [Stat] returns an error and the handle
    is unchanged, its four cached fields included; when it succeeds, the
    four fields hold the fetched counters and [Size], [Used], [Avail] and
    [NObjects] return them. *)
Theorem Stat_updates_atomically (r : Rados) (w : World)
    (cerr : Z) (cstat : rados_cluster_stat_t) (w1 : World) :
  rados_cluster_stat lib (rados r) w = (cerr, cstat, w1) ->
  is_cluster_stat cstat ->
  let '(err, r', w', tr) := Stat lib r w in
  w' = w1 /\ tr = [call_cluster_stat (rados r) cerr] /\
  (cerr < 0 ->
     err = Some ("RADOS cluster stat: " +:+ strerror lib cerr) /\ r' = r) /\
  (0 <= cerr ->
     err = None /\ rados r' = rados r /\
     Size r' = kb cstat /\ Used r' = kb_used cstat /\
     Avail r' = kb_avail cstat /\ NObjects r' = num_objects cstat).
Proof.
  intros Hnative (Hkb & Hused & Havail & Hnum).
  rewrite Stat_run, Hnative.
  case_status.
  - repeat split; intros; try reflexivity; lia.
  - split; [reflexivity |]. split; [reflexivity |].
    split; [lia |]. intros _.
    unfold Size, Used, Avail, NObjects. cbn.
    rewrite !uint64_exact by assumption. repeat split.
Qed.

(** C9.  [Release] never reports an error: whatever the handle and the
    state of the native library, it makes one native call, the shutdown of
    the handle, and returns nil; so does a second [Release] of the same
    handle. *)
Theorem Release_returns_nil (r : Rados) (w : World) :
  let '(err, w', tr) := Release lib r w in
  err = None /\
  w' = rados_shutdown lib (rados r) w /\
  tr = [call_shutdown (rados r)] /\
  (Release lib r w').1.1 = None.
Proof.
  unfold Release. unfold_M. unfold_native.
  cbn [app fst]. repeat split.
Qed.

Lemma New_run (configFile : string) (w : World) :
  New lib configFile w =
    let '(c1, h, w1) := rados_create lib w in
    let e1 := call_create c1 h in
    if c1 <? 0 then
      (None, Some ("RADOS create: " +:+ strerror lib c1), w1, [e1])
    else
      let path :=
        if decide (configFile = EmptyString) then None
        else Some configFile in
      let '(c2, w2) := rados_conf_read_file lib h path w1 in
      let e2 := call_conf_read_file h path c2 in
      if c2 <? 0 then
        (None, Some ("RADOS config: " +:+ strerror lib c2), w2, [e1; e2])
      else
        let '(c3, w3) := rados_connect lib h w2 in
        let e3 := call_connect h c3 in
        if c3 <? 0 then
          (None, Some ("RADOS connect: " +:+ strerror lib c3), w3,
           [e1; e2; e3])
        else
          let '(c4, cstat, w4) := rados_cluster_stat lib h w3 in
          let e4 := call_cluster_stat h c4 in
          if c4 <? 0 then
            (None, Some ("RADOS cluster stat: " +:+ strerror lib c4),
             rados_shutdown lib h w4, [e1; e2; e3; e4; call_shutdown h])
          else
            (Some {| rados := h; size := uint64 (kb cstat);
                     used := uint64 (kb_used cstat);
                     avail := uint64 (kb_avail cstat);
                     nObjects := uint64 (num_objects cstat) |},
             None, w4, [e1; e2; e3; e4]).
Proof.
  unfold New. unfold_M. unfold C_rados_create at 1.
  destruct (rados_create lib w) as [[c1 h] w1].
  destruct (c1 <? 0); [reflexivity |].
  cbn [rados]. unfold CString.
  destruct (decide (configFile = EmptyString)) as [Hcfg | Hcfg];
    unfold C_rados_conf_read_file;
    (destruct (rados_conf_read_file lib h _ w1) as [c2 w2];
     destruct (c2 <? 0); [reflexivity |];
     unfold C_rados_connect;
     destruct (rados_connect lib h w2) as [c3 w3];
     destruct (c3 <? 0); [reflexivity |];
     rewrite Stat_run; cbn [rados];
     destruct (rados_cluster_stat lib h w3) as [[c4 cstat] w4];
     destruct (c4 <? 0); reflexivity).
Qed.

(** C5.  [New] is all-or-nothing.  Whatever the configuration path, it
    returns either a handle and no error, or an error and no handle; it
    returns the error exactly when one of its steps (allocation of the
    native handle, configuration load, connect, first statistics fetch)
    got a negative status; and when the statistics fetch is that step, the
    last native call is the shutdown of the handle that was being built. *)
Theorem New_all_or_nothing (configFile : string) (w : World) :
  let '(r, err, w', tr) := New lib configFile w in
  ((r = None /\ is_Some err) \/ (is_Some r /\ err = None)) /\
  (Exists failed tr <-> r = None) /\
  (forall h c, In (call_cluster_stat h c) tr -> c < 0 ->
     exists tr0 c0,
       tr = call_create c0 h :: tr0 ++
            [call_cluster_stat h c; call_shutdown h]).
Proof.
  rewrite New_run.
  destruct (rados_create lib w) as [[c1 h] w1].
  assert (Hfailed : forall ev c,
            status_of ev = Some c -> failed ev <-> c < 0).
  { intros ev c Hev. unfold failed. rewrite Hev. split.
    - intros (c' & [= <-] & Hc). exact Hc.
    - intros Hc. exists c. split; [reflexivity | exact Hc]. }
  assert (Hshutdown : forall h', ~ failed (call_shutdown h')).
  { intros h' (c & [=] & _). }
  case_status; cbn zeta.
  { split; [left; split; [reflexivity | eexists; reflexivity] |].
    split.
    - split; [reflexivity |]. intros _. apply Exists_cons_hd.
      apply (Hfailed _ c1); [reflexivity | lia].
    - intros h' c [[=] | []]. }
  destruct (rados_conf_read_file lib h _ w1) as [c2 w2].
  case_status.
  { split; [left; split; [reflexivity | eexists; reflexivity] |].
    split.
    - split; [reflexivity |]. intros _.
      apply Exists_cons_tl, Exists_cons_hd.
      apply (Hfailed _ c2); [reflexivity | lia].
    - intros h' c [[=] | [[=] | []]]. }
  destruct (rados_connect lib h w2) as [c3 w3].
  case_status.
  { split; [left; split; [reflexivity | eexists; reflexivity] |].
    split.
    - split; [reflexivity |]. intros _.
      do 2 apply Exists_cons_tl. apply Exists_cons_hd.
      apply (Hfailed _ c3); [reflexivity | lia].
    - intros h' c [[=] | [[=] | [[=] | []]]]. }
  destruct (rados_cluster_stat lib h w3) as [[c4 cstat] w4].
  case_status.
  { split; [left; split; [reflexivity | eexists; reflexivity] |].
    split.
    - split; [reflexivity |]. intros _.
      do 3 apply Exists_cons_tl. apply Exists_cons_hd.
      apply (Hfailed _ c4); [reflexivity | lia].
    - intros h' c [[=] | [[=] | [[=] | [[= <- <-] | [[=] | []]]]]] Hc.
      eexists [_; _], c1. reflexivity. }
  split; [right; split; [eexists; reflexivity | reflexivity] |].
  split.
  - split; [| intros [=]]. intros Hex. exfalso.
    rewrite !Exists_cons, Exists_nil in Hex.
    rewrite (Hfailed _ c1), (Hfailed _ c2), (Hfailed _ c3), (Hfailed _ c4)
      in Hex by reflexivity.
    lia.
  - intros h' c [[=] | [[=] | [[=] | [[= <- <-] | []]]]] Hc. lia.
Qed.

(** C10.  [NewDefault] is [New] at the empty configuration path: the same
    handle, error, world and native calls; and with the empty path the
    configuration is read with a nil file name, which leaves the search to
    the native library's default locations. *)
Theorem NewDefault_is_New_empty (w : World) :
  NewDefault lib w = New lib EmptyString w /\
  (forall h path c,
     In (call_conf_read_file h path c) (New lib EmptyString w).2 ->
     path = None).
Proof.
  split.
  - unfold NewDefault. unfold_M.
    destruct (New lib EmptyString w) as [[[r err] w'] tr].
    rewrite app_nil_r. reflexivity.
  - rewrite New_run.
    destruct (rados_create lib w) as [[c1 h] w1].
    destruct (c1 <? 0); cbn zeta.
    { intros h' path c [[=] | []]. }
    destruct (decide (EmptyString = EmptyString)) as [_ | Hne];
      [| congruence].
    destruct (rados_conf_read_file lib h None w1) as [c2 w2].
    destruct (c2 <? 0).
    { intros h' path c [[=] | [[= _ <- _] | []]]. reflexivity. }
    destruct (rados_connect lib h w2) as [c3 w3].
    destruct (c3 <? 0).
    { intros h' path c [[=] | [[= _ <- _] | [[=] | []]]]. reflexivity. }
    destruct (rados_cluster_stat lib h w3) as [[c4 cstat] w4].
    destruct (c4 <? 0).
    + intros h' path c [[=] | [[= _ <- _] | [[=] | [[=] | [[=] | []]]]]].
      reflexivity.
    + intros h' path c [[=] | [[= _ <- _] | [[=] | [[=] | []]]]].
      reflexivity.
Qed.

(** ** Pool administration and error reporting *)

Lemma append_assoc (s1 s2 s3 : string) :
  (s1 +:+ s2) +:+ s3 = s1 +:+ s2 +:+ s3.
Proof.
  induction s1 as [| a s1 IH]; [reflexivity |].
  change (String a ((s1 +:+ s2) +:+ s3) = String a (s1 +:+ s2 +:+ s3)).
  rewrite IH. reflexivity.
Qed.

Lemma failed_iff (ev : native_call) (c : Z) :
  status_of ev = Some c -> failed ev <-> c < 0.
Proof.
  intros Hev. unfold failed. rewrite Hev. split.
  - intros (c' & [= <-] & Hc). exact Hc.
  - intros Hc. exists c. split; [reflexivity | exact Hc].
Qed.

Lemma CreatePool_run (r : Rados) (poolName : string) (w : World) :
  CreatePool lib r poolName w =
    let '(cerr, w') := rados_pool_create lib (rados r) poolName w in
    (if cerr <? 0 then
       Some ("RADOS pool create " +:+ poolName +:+ ": " +:+ strerror lib cerr)
     else None,
     w', [call_pool_create (rados r) poolName cerr]).
Proof.
  unfold CreatePool, CString. unfold_M. unfold_native.
  destruct (rados_pool_create lib (rados r) poolName w) as [cerr w'].
  destruct (cerr <? 0); reflexivity.
Qed.

Lemma DeletePool_run (r : Rados) (poolName : string) (w : World) :
  DeletePool lib r poolName w =
    let '(cerr, w') := rados_pool_delete lib (rados r) poolName w in
    (if cerr <? 0 then
       Some ("RADOS pool delete " +:+ poolName +:+ ": " +:+ strerror lib cerr)
     else None,
     w', [call_pool_delete (rados r) poolName cerr]).
Proof.
  unfold DeletePool, CString. unfold_M. unfold_native.
  destruct (rados_pool_delete lib (rados r) poolName w) as [cerr w'].
  destruct (cerr <? 0); reflexivity.
Qed.

Lemma ListPools_loop_step (fuel : nat) (r : Rados) (bufSize : Z) (w : World) :
  0 < bufSize ->
  ListPools_loop lib (S fuel) r bufSize w =
    let '(c, written, w1) := rados_pool_list lib (rados r) bufSize w in
    let ev := call_pool_list (rados r) bufSize c in
    if c <? 0 then
      (Some (inr (Some ("RADOS list pools: " +:+ strerror lib c))), w1, [ev])
    else if bufSize <? c then
      let '(res, w2, tr) := ListPools_loop lib fuel r c w1 in
      (res, w2, ev :: tr)
    else
      (Some (inl (c_store (make_bytes bufSize) written)), w1, [ev]).
Proof.
  intros Hpos. cbn [ListPools_loop].
  rewrite byteSliceToBuffer_make by exact Hpos.
  unfold_M. unfold_native. unfold int.
  destruct (rados_pool_list lib (rados r) bufSize w) as [[c written] w1].
  destruct (c <? 0); [reflexivity |].
  destruct (bufSize <? c); [| reflexivity].
  destruct (ListPools_loop lib fuel r c w1) as [[res w2] tr]. reflexivity.
Qed.

Lemma ListPools_fuel_run (fuel : nat) (r : Rados) (w : World) :
  ListPools_fuel lib fuel r w =
    let '(res, w', tr) := ListPools_loop lib fuel r 256 w in
    (ListPools_finish <$> res, w', tr).
Proof.
  unfold ListPools_fuel. unfold_M.
  destruct (ListPools_loop lib fuel r 256 w) as [[[res |] w'] tr];
    cbn; rewrite app_nil_r; reflexivity.
Qed.

(** A negative status ends the loop: it is the status of the last call,
    and the loop returns the error made from it. *)
Lemma ListPools_loop_surfaced (fuel : nat) (r : Rados) :
  forall (bufSize : Z) (w : World), 0 < bufSize ->
  forall ev status,
    In ev (ListPools_loop lib fuel r bufSize w).2 ->
    status_of ev = Some status -> status < 0 ->
    (ListPools_loop lib fuel r bufSize w).1.1 =
      Some (inr (Some (operation_label ev +:+ ": " +:+
                       c_strerror lib (neg_C_int status)))).
Proof.
  induction fuel as [| fuel IH]; intros bufSize w Hpos ev status.
  - intros [].
  - rewrite ListPools_loop_step by exact Hpos.
    destruct (rados_pool_list lib (rados r) bufSize w) as [[c written] w1].
    cbn zeta. case_status.
    + intros [<- | []] [= <-] _. reflexivity.
    + destruct (Z.ltb_spec bufSize c) as [Hgrow | Hfit].
      * specialize (IH c w1 ltac:(lia) ev status).
        destruct (ListPools_loop lib fuel r c w1) as [[res w2] tr].
        intros [<- | Hin]; [intros [= <-]; lia | exact (IH Hin)].
      * intros [<- | []] [= <-]. lia.
Qed.

(** C7.  No negative native status is swallowed.  In [New], [Stat],
    [CreatePool], [DeletePool] and [ListPools], whenever a native call
    returned a negative status, the operation returns an error whose text
    is the name of the failing operation, the pool name where there is one,
    and the text libc's strerror has for the negated status ([-cerr] on a
    [C.int], which is the opposite number for every status above the
    smallest [C.int]).  A failed [New] gives no handle and a failed
    [ListPools] no pools. *)
Theorem negative_status_is_surfaced :
  (forall configFile w,
     let '(r, err, _, tr) := New lib configFile w in
     surfaced lib tr err /\ (Exists failed tr -> r = None)) /\
  (forall r w,
     let '(err, _, _, tr) := Stat lib r w in surfaced lib tr err) /\
  (forall r poolName w,
     let '(err, _, tr) := CreatePool lib r poolName w in
     surfaced lib tr err /\
     (forall status, In (call_pool_create (rados r) poolName status) tr ->
        status < 0 ->
        err = Some ("RADOS pool create " +:+ poolName +:+ ": " +:+
                    c_strerror lib (neg_C_int status)))) /\
  (forall r poolName w,
     let '(err, _, tr) := DeletePool lib r poolName w in
     surfaced lib tr err /\
     (forall status, In (call_pool_delete (rados r) poolName status) tr ->
        status < 0 ->
        err = Some ("RADOS pool delete " +:+ poolName +:+ ": " +:+
                    c_strerror lib (neg_C_int status)))) /\
  (forall fuel r w,
     let '(res, _, tr) := ListPools_fuel lib fuel r w in
     forall ev status,
       In ev tr -> status_of ev = Some status -> status < 0 ->
       res = Some ([], Some (operation_label ev +:+ ": " +:+
                             c_strerror lib (neg_C_int status)))) /\
  (forall status, C_INT_MIN < status < 0 ->
     neg_C_int status = - status /\ 0 < neg_C_int status).
Proof.
  split; [| split; [| split; [| split; [| split]]]].
  - intros configFile w.
    rewrite New_run.
    destruct (rados_create lib w) as [[c1 h] w1]. cbn zeta.
    case_status.
    { split; [| intros _; reflexivity].
      intros ev status [<- | []] [= <-] _. reflexivity. }
    destruct (rados_conf_read_file lib h _ w1) as [c2 w2].
    case_status.
    { split; [| intros _; reflexivity].
      intros ev status [<- | [<- | []]] [= <-] Hneg;
        [lia | reflexivity]. }
    destruct (rados_connect lib h w2) as [c3 w3].
    case_status.
    { split; [| intros _; reflexivity].
      intros ev status [<- | [<- | [<- | []]]] [= <-] Hneg;
        [lia | lia | reflexivity]. }
    destruct (rados_cluster_stat lib h w3) as [[c4 cstat] w4].
    case_status.
    { split; [| intros _; reflexivity].
      intros ev status [<- | [<- | [<- | [<- | [<- | []]]]]] [= <-] Hneg;
        [lia | lia | lia | reflexivity]. }
    split.
    + intros ev status [<- | [<- | [<- | [<- | []]]]] [= <-] Hneg; lia.
    + intros Hex. exfalso.
      rewrite !Exists_cons, Exists_nil in Hex.
      rewrite (failed_iff _ c1), (failed_iff _ c2), (failed_iff _ c3),
        (failed_iff _ c4) in Hex by reflexivity.
      lia.
  - intros r w. rewrite Stat_run.
    destruct (rados_cluster_stat lib (rados r) w) as [[cerr cstat] w'].
    case_status.
    + intros ev status [<- | []] [= <-] _. reflexivity.
    + intros ev status [<- | []] [= <-] Hneg. lia.
  - intros r poolName w. rewrite CreatePool_run.
    destruct (rados_pool_create lib (rados r) poolName w) as [cerr w'].
    case_status.
    + split.
      * intros ev status [<- | []] [= <-] _. cbn [operation_label].
        rewrite append_assoc. reflexivity.
      * intros status [[= <-] | []] _. reflexivity.
    + split.
      * intros ev status [<- | []] [= <-] Hneg. lia.
      * intros status [[= <-] | []] Hneg. lia.
  - intros r poolName w. rewrite DeletePool_run.
    destruct (rados_pool_delete lib (rados r) poolName w) as [cerr w'].
    case_status.
    + split.
      * intros ev status [<- | []] [= <-] _. cbn [operation_label].
        rewrite append_assoc. reflexivity.
      * intros status [[= <-] | []] _. reflexivity.
    + split.
      * intros ev status [<- | []] [= <-] Hneg. lia.
      * intros status [[= <-] | []] Hneg. lia.
  - intros fuel r w. rewrite ListPools_fuel_run.
    pose proof (ListPools_loop_surfaced fuel r 256 w ltac:(lia)) as Hloop.
    destruct (ListPools_loop lib fuel r 256 w) as [[res w'] tr].
    intros ev status Hin Hev Hneg.
    cbn in Hloop. rewrite (Hloop ev status Hin Hev Hneg). reflexivity.
  - intros status Hrange.
    rewrite neg_C_int_exact by (unfold C_INT_MAX, C_INT_MIN in *; lia).
    lia.
Qed.

(** ** ListPools: the size negotiation *)

Lemma ListPools_loop_sound (r : Rados) (fuel : nat) :
  forall bufSize w lres w' tr,
    0 < bufSize ->
    ListPools_loop lib fuel r bufSize w = (Some lres, w', tr) ->
    BufferNegotiator lib r bufSize w (ListPools_finish lres) w' tr.
Proof.
  induction fuel as [| fuel IH]; intros bufSize w lres w' tr Hpos.
  - intros [=].
  - rewrite ListPools_loop_step by exact Hpos.
    destruct (rados_pool_list lib (rados r) bufSize w)
      as [[c written] w1] eqn:Hcall.
    cbn zeta. case_status.
    + intros [= <- <- <-]. apply (negotiate_abort lib r _ _ _ written); assumption.
    + destruct (Z.ltb_spec bufSize c) as [Hgrow | Hfit].
      * destruct (ListPools_loop lib fuel r c w1) as [[res w2] tr2] eqn:Hrec.
        intros [= -> <- <-].
        apply (negotiate_retry lib r _ _ c written w1); try assumption.
        apply IH; [lia | exact Hrec].
      * intros [= <- <- <-].
        apply (negotiate_done lib r _ _ c written); [assumption | lia].
Qed.

Lemma ListPools_loop_complete (r : Rados) :
  forall bufSize w res w' tr,
    BufferNegotiator lib r bufSize w res w' tr ->
    0 < bufSize ->
    exists fuel lres,
      ListPools_loop lib fuel r bufSize w = (Some lres, w', tr) /\
      ListPools_finish lres = res.
Proof.
  intros bufSize w res w' tr Hneg.
  induction Hneg as
    [ bufSize w status written w' Hcall Hstatus
    | bufSize w required written w' res w'' tr Hcall Hreq Hgrow Hrest IH
    | bufSize w required written w' Hcall Hfit ];
    intros Hpos.
  - exists 1%nat, (inr (Some ("RADOS list pools: " +:+ strerror lib status))).
    rewrite ListPools_loop_step, Hcall by exact Hpos. cbn zeta.
    destruct (Z.ltb_spec status 0); [| lia]. split; reflexivity.
  - destruct (IH ltac:(lia)) as (fuel & lres & Hrun & Hfin).
    exists (S fuel), lres.
    rewrite ListPools_loop_step, Hcall by exact Hpos. cbn zeta.
    destruct (Z.ltb_spec required 0); [lia |].
    destruct (Z.ltb_spec bufSize required); [| lia].
    rewrite Hrun. split; [reflexivity | exact Hfin].
  - exists 1%nat, (inl (c_store (make_bytes bufSize) written)).
    rewrite ListPools_loop_step, Hcall by exact Hpos. cbn zeta.
    destruct (Z.ltb_spec required 0); [lia |].
    destruct (Z.ltb_spec bufSize required); [lia |].
    split; reflexivity.
Qed.

(** C2.  [ListPools] follows the size-negotiation protocol, and only it:
    its runs that return are exactly the runs of the protocol started with
    a buffer of 256 bytes.  Each iteration calls the native function with
    the current buffer; a negative status aborts with the mapped error; a
    count above the buffer size makes the next iteration use a buffer of
    exactly that count; any other count ends the loop, and the buffer is
    parsed and returned. *)
Theorem ListPools_negotiates (r : Rados) (w : World)
    (res : list string * error) (w' : World) (tr : list native_call) :
  ListPools_returns lib r w res w' tr <->
  BufferNegotiator lib r 256 w res w' tr.
Proof.
  unfold ListPools_returns. split.
  - intros (fuel & Hrun). rewrite ListPools_fuel_run in Hrun.
    destruct (ListPools_loop lib fuel r 256 w) as [[[lres |] w2] tr2] eqn:Hloop;
      [| discriminate Hrun].
    injection Hrun as <- <- <-.
    apply (ListPools_loop_sound r fuel); [lia | exact Hloop].
  - intros Hneg.
    destruct (ListPools_loop_complete r _ _ _ _ _ Hneg ltac:(lia))
      as (fuel & lres & Hrun & Hfin).
    exists fuel. rewrite ListPools_fuel_run, Hrun, <- Hfin. reflexivity.
Qed.

(** Under the native contract two iterations are enough. *)
Lemma ListPools_two_iterations (r : Rados) (w : World) :
  honours_reported_size lib (rados r) ->
  exists res w' tr,
    (length tr <= 2)%nat /\
    forall fuel, (2 <= fuel)%nat ->
      ListPools_fuel lib fuel r w = (Some res, w', tr).
Proof.
  intros Hcontract.
  destruct (rados_pool_list lib (rados r) 256 w)
    as [[c1 written1] w1] eqn:Hcall1.
  destruct (Z.ltb_spec c1 0) as [Hneg1 | Hpos1].
  { eexists _, _, _. split; [| intros [| [| fuel]] Hfuel; try lia;
      rewrite ListPools_fuel_run, ListPools_loop_step, Hcall1 by lia;
      cbn zeta;
      destruct (Z.ltb_spec c1 0); [reflexivity | lia]].
    cbn. lia. }
  destruct (Z.ltb_spec 256 c1) as [Hgrow | Hfit].
  2: { eexists _, _, _. split; [| intros [| [| fuel]] Hfuel; try lia;
         rewrite ListPools_fuel_run, ListPools_loop_step, Hcall1 by lia;
         cbn zeta;
         destruct (Z.ltb_spec c1 0); [lia |];
         destruct (Z.ltb_spec 256 c1); [lia | reflexivity]].
       cbn. lia. }
  pose proof (Hcontract w 256 c1 written1 w1 Hcall1 Hgrow c1 ltac:(lia))
    as Hsecond.
  destruct (rados_pool_list lib (rados r) c1 w1)
    as [[c2 written2] w2] eqn:Hcall2.
  cbn in Hsecond.
  eexists _, _, _. split; [| intros [| [| fuel]] Hfuel; try lia;
    rewrite ListPools_fuel_run, ListPools_loop_step, Hcall1 by lia;
    cbn zeta;
    destruct (Z.ltb_spec c1 0); [lia |];
    destruct (Z.ltb_spec 256 c1); [| lia];
    rewrite ListPools_loop_step, Hcall2 by lia;
    cbn zeta;
    destruct (Z.ltb_spec c2 0); [lia |];
    destruct (Z.ltb_spec c1 c2); [lia | reflexivity]].
  cbn. lia.
Qed.

(** A loop that ends with an error ends with a non-nil error. *)
Lemma ListPools_loop_error (r : Rados) (fuel : nat) :
  forall bufSize w err w' tr,
    0 < bufSize ->
    ListPools_loop lib fuel r bufSize w = (Some (inr err), w', tr) ->
    is_Some err.
Proof.
  induction fuel as [| fuel IH]; intros bufSize w err w' tr Hpos.
  - intros [=].
  - rewrite ListPools_loop_step by exact Hpos.
    destruct (rados_pool_list lib (rados r) bufSize w) as [[c written] w1].
    cbn zeta. destruct (c <? 0).
    + intros [= <- _ _]. eexists. reflexivity.
    + destruct (Z.ltb_spec bufSize c) as [Hgrow | Hfit]; [| intros [=]].
      destruct (ListPools_loop lib fuel r c w1) as [[res w2] tr2] eqn:Hrec.
      intros [= -> _ _]. apply (IH c w1 err w2 tr2); [lia | exact Hrec].
Qed.

End PackageProperties.

(** ** ListPools: parsing the buffer *)

Lemma bytes_Split_cons (s : list byte) (sep : byte) :
  exists seg segs, bytes_Split s sep = seg :: segs.
Proof.
  destruct s as [| b s]; cbn; [eexists _, _; reflexivity |].
  destruct (Byte.eqb b sep); [eexists _, _; reflexivity |].
  destruct (bytes_Split s sep); eexists _, _; reflexivity.
Qed.

(** Splitting loses nothing: joining the segments gives the slice back. *)
Lemma bytes_Join_Split (s : list byte) (sep : byte) :
  bytes_Join (bytes_Split s sep) sep = s.
Proof.
  induction s as [| b s IH]; [reflexivity |].
  cbn [bytes_Split].
  destruct (bytes_Split_cons s sep) as (seg & segs & Hsplit).
  rewrite Hsplit in IH |- *.
  destruct (Byte.eqb b sep) eqn:Hb.
  - apply Byte.byte_dec_bl in Hb. subst b.
    change (bytes_Join ([] :: seg :: segs) sep)
      with ([] ++ sep :: bytes_Join (seg :: segs) sep).
    rewrite IH. reflexivity.
  - destruct segs as [| seg' segs]; cbn in IH |- *; rewrite IH; reflexivity.
Qed.

(** No segment holds the separator. *)
Lemma bytes_Split_no_sep (s : list byte) (sep : byte) :
  Forall (fun seg => sep ∉ seg) (bytes_Split s sep).
Proof.
  induction s as [| b s IH]; cbn [bytes_Split].
  - constructor; [apply not_elem_of_nil | constructor].
  - destruct (Byte.eqb b sep) eqn:Hb.
    + constructor; [apply not_elem_of_nil | exact IH].
    + destruct (bytes_Split s sep) as [| seg segs].
      * constructor; [| constructor].
        intros Hin. apply list_elem_of_singleton in Hin. subst b.
        apply Byte.eqb_false in Hb. congruence.
      * inversion IH as [| ? ? Hseg Hsegs]; subst.
        constructor; [| exact Hsegs].
        rewrite not_elem_of_cons. split; [| exact Hseg].
        intros ->. apply Byte.eqb_false in Hb. congruence.
Qed.

Lemma collect_pools_filter (poolsBuf : list (list byte)) :
  collect_pools poolsBuf =
    String.string_of_list_byte <$>
      filter (fun seg => length seg ≠ 0%nat) poolsBuf.
Proof.
  unfold collect_pools.
  enough (Hacc : forall acc,
    fold_left
      (fun pools seg =>
         if len seg =? 0 then pools
         else pools ++ [String.string_of_list_byte seg]) poolsBuf acc =
    acc ++ (String.string_of_list_byte <$>
              filter (fun seg => length seg ≠ 0%nat) poolsBuf)).
  { rewrite Hacc. reflexivity. }
  induction poolsBuf as [| seg rest IH]; intros acc.
  - cbn. rewrite app_nil_r. reflexivity.
  - cbn [fold_left]. rewrite IH, filter_cons. unfold len.
    destruct (Z.eqb_spec (Z.of_nat (length seg)) 0) as [Hz | Hnz].
    + destruct (decide (length seg ≠ 0%nat)); [lia | reflexivity].
    + destruct (decide (length seg ≠ 0%nat)); [| lia].
      rewrite fmap_cons, <- app_assoc. reflexivity.
Qed.

#[local] Instance string_of_list_byte_inj :
  Inj (=) (=) String.string_of_list_byte.
Proof.
  intros s1 s2 Heq.
  rewrite <- (String.list_byte_of_string_of_list_byte s1),
          <- (String.list_byte_of_string_of_list_byte s2), Heq.
  reflexivity.
Qed.

Lemma parse_pools_nonempty (buf : list byte) :
  Forall (fun pool => pool ≠ EmptyString) (parse_pools buf).
Proof.
  unfold parse_pools. rewrite collect_pools_filter.
  apply Forall_fmap, Forall_forall. intros seg Hin.
  apply list_elem_of_filter in Hin as [Hlen _]. cbn.
  intros Hempty.
  apply (f_equal String.list_byte_of_string) in Hempty.
  rewrite String.list_byte_of_string_of_list_byte in Hempty.
  subst seg. apply Hlen. reflexivity.
Qed.

(** The 19-byte list of three pools in a 256-byte buffer: the names come
    out in order, the closing NUL and the unused zero bytes give nothing. *)
Example parse_three_pools :
  parse_pools (c_store (make_bytes 256) three_pools)
    = ["data"; "metadata"; "rbd"].
Proof. vm_compute. reflexivity. Qed.

Section ListPoolsResult.
Context {World : Type} (lib : librados World).

(** C4, as the code has it.  The entries of a successful [ListPools] are
    the non-empty segments that splitting the final buffer on NUL bytes
    gives, in the order of the buffer: every entry is a non-empty string and
    every empty segment, the closing sentinel included, is discarded.
    Nothing removes duplicates: the entries are pairwise distinct exactly
    when the non-empty segments of the buffer are. *)
Theorem ListPools_entries (fuel : nat) (r : Rados) (w : World)
    (pools : list string) (w' : World) (tr : list native_call) :
  ListPools_fuel lib fuel r w = (Some (pools, None), w', tr) ->
  exists buf,
    ListPools_loop lib fuel r 256 w = (Some (inl buf), w', tr) /\
    let segs := bytes_Split buf Byte.x00 in
    bytes_Join segs Byte.x00 = buf /\
    Forall (fun seg => Byte.x00 ∉ seg) segs /\
    pools = String.string_of_list_byte <$>
              filter (fun seg => length seg ≠ 0%nat) segs /\
    Forall (fun pool => pool ≠ EmptyString) pools /\
    (NoDup pools <-> NoDup (filter (fun seg => length seg ≠ 0%nat) segs)).
Proof.
  rewrite ListPools_fuel_run.
  destruct (ListPools_loop lib fuel r 256 w) as [[[lres |] w2] tr2] eqn:Hloop;
    [| intros [=]].
  destruct lres as [buf | err].
  - cbn. intros [= <- <- <-]. exists buf.
    split; [reflexivity |].
    split; [apply bytes_Join_Split |].
    split; [apply bytes_Split_no_sep |].
    split; [apply collect_pools_filter |].
    split; [apply parse_pools_nonempty |].
    unfold parse_pools. rewrite collect_pools_filter.
    apply (NoDup_fmap _).
  - cbn. intros [= _ -> _ _].
    apply ListPools_loop_error in Hloop as [msg [=]]. lia.
Qed.

End ListPoolsResult.

(** ** ListPools: how long the loop can run *)

Lemma c_store_nothing (buf : list byte) : c_store buf [] = buf.
Proof. unfold c_store. cbn. apply firstn_all. Qed.

Lemma one_more_byte_C_int (n : nat) :
  256 + Z.of_nat n <= C_INT_MAX ->
  pool_list_C_int (scripted (one_more_byte n)).
Proof.
  intros Hn h size w. cbn. unfold is_C_int, C_INT_MIN, C_INT_MAX in *.
  destruct (Z.leb_spec 0 size); destruct (Z.ltb_spec size (256 + Z.of_nat n));
    cbn; lia.
Qed.

Lemma one_more_byte_step (n fuel : nat) (r : Rados) (bufSize : Z) :
  0 < bufSize ->
  ListPools_loop (scripted (one_more_byte n)) (S fuel) r bufSize tt =
    if bufSize <? 256 + Z.of_nat n then
      let '(res, w, tr) :=
        ListPools_loop (scripted (one_more_byte n)) fuel r (bufSize + 1) tt in
      (res, w, call_pool_list (rados r) bufSize (bufSize + 1) :: tr)
    else
      (Some (inl (make_bytes bufSize)), tt,
       [call_pool_list (rados r) bufSize 0]).
Proof.
  intros Hpos. rewrite ListPools_loop_step by exact Hpos.
  cbn [rados_pool_list scripted on_pool_list one_more_byte].
  destruct (Z.leb_spec 0 bufSize); [| lia].
  destruct (Z.ltb_spec bufSize (256 + Z.of_nat n)); cbn [andb].
  - destruct (Z.ltb_spec (bufSize + 1) 0); [lia |].
    destruct (Z.ltb_spec bufSize (bufSize + 1)); [reflexivity | lia].
  - destruct (Z.ltb_spec bufSize 0); [lia |].
    rewrite c_store_nothing. reflexivity.
Qed.

(** While the buffer is short of [256 + n] bytes the loop goes on. *)
Lemma one_more_byte_running (n fuel : nat) (r : Rados) :
  forall bufSize,
    0 < bufSize ->
    bufSize + Z.of_nat fuel <= 256 + Z.of_nat n ->
    (ListPools_loop (scripted (one_more_byte n)) fuel r bufSize tt).1.1 = None.
Proof.
  induction fuel as [| fuel IH]; intros bufSize Hpos Hshort; [reflexivity |].
  rewrite one_more_byte_step by exact Hpos.
  destruct (Z.ltb_spec bufSize (256 + Z.of_nat n)); [| lia].
  specialize (IH (bufSize + 1) ltac:(lia) ltac:(lia)).
  destruct (ListPools_loop _ fuel r (bufSize + 1) tt) as [[res w] tr].
  exact IH.
Qed.

(** It ends with the call that finds the buffer large enough. *)
Lemma one_more_byte_stops (n k : nat) (r : Rados) :
  forall bufSize,
    0 < bufSize ->
    bufSize + Z.of_nat k = 256 + Z.of_nat n ->
    exists tr,
      ListPools_loop (scripted (one_more_byte n)) (S k) r bufSize tt =
        (Some (inl (make_bytes (256 + Z.of_nat n))), tt, tr) /\
      length tr = S k.
Proof.
  induction k as [| k IH]; intros bufSize Hpos Hlast;
    rewrite one_more_byte_step by exact Hpos.
  - destruct (Z.ltb_spec bufSize (256 + Z.of_nat n)); [lia |].
    replace (256 + Z.of_nat n) with bufSize by lia.
    eexists. split; reflexivity.
  - destruct (Z.ltb_spec bufSize (256 + Z.of_nat n)); [| lia].
    destruct (IH (bufSize + 1) ltac:(lia) ltac:(lia)) as (tr & Hrun & Hlen).
    rewrite Hrun. eexists. split; [reflexivity |]. cbn. rewrite Hlen.
    reflexivity.
Qed.

(** C3.  The retry loop of [ListPools] has no iteration cap of its own:
    for every [n] that the [C.int] count leaves room for, some native
    library makes the loop run [n] iterations without an end and stop at
    iteration [n + 1].  When the native pool-list call honours the size it
    reported (called with a buffer at least that large it returns a
    non-negative count that fits the buffer), the loop ends, after two
    native calls at most. *)
Theorem ListPools_terminates_under_contract :
  (forall n : nat,
     256 + Z.of_nat n <= C_INT_MAX ->
     exists s : script,
       pool_list_C_int (scripted s) /\
       forall r,
         (ListPools_fuel (scripted s) n r tt).1.1 = None /\
         exists res tr,
           ListPools_fuel (scripted s) (S n) r tt = (Some res, tt, tr) /\
           length tr = S n) /\
  (forall (World : Type) (lib : librados World) (r : Rados) (w : World),
     honours_reported_size lib (rados r) ->
     exists res w' tr,
       (length tr <= 2)%nat /\
       forall fuel, (2 <= fuel)%nat ->
         ListPools_fuel lib fuel r w = (Some res, w', tr)).
Proof.
  split.
  - intros n Hn. exists (one_more_byte n).
    split; [apply one_more_byte_C_int, Hn |].
    intros r. split.
    + rewrite ListPools_fuel_run.
      pose proof (one_more_byte_running n n r 256 ltac:(lia) ltac:(lia))
        as Hrun.
      destruct (ListPools_loop _ n r 256 tt) as [[res w] tr].
      cbn in Hrun |- *. rewrite Hrun. reflexivity.
    + destruct (one_more_byte_stops n n r 256 ltac:(lia) ltac:(lia))
        as (tr & Hrun & Hlen).
      eexists _, tr. rewrite ListPools_fuel_run, Hrun.
      split; [reflexivity | exact Hlen].
  - intros World lib r w. apply ListPools_two_iterations.
Qed.

Lemma big_list_honours_reported_size :
  honours_reported_size (scripted big_list) (rados Rados_zero).
Proof.
  intros w bufSize required written w' [= <- _ _] _ bufSize' Hlarge.
  cbn. lia.
Qed.

Lemma ListPools_terminates_under_contract_witness :
  honours_reported_size (scripted big_list) (rados Rados_zero) /\
  exists res w' tr,
    (length tr <= 2)%nat /\
    forall fuel, (2 <= fuel)%nat ->
      ListPools_fuel (scripted big_list) fuel Rados_zero tt =
        (Some res, w', tr).
Proof.
  split; [exact big_list_honours_reported_size |].
  exact (proj2 ListPools_terminates_under_contract unit (scripted big_list)
           Rados_zero tt big_list_honours_reported_size).
Defined.

(** ** Runs against the example clusters *)

Lemma Stat_updates_atomically_witness :
  rados_cluster_stat (scripted healthy) (rados Rados_zero) tt
    = (0, stat_example, tt) /\
  is_cluster_stat stat_example /\
  let '(err, r', w', tr) := Stat (scripted healthy) Rados_zero tt in
  w' = tt /\ tr = [call_cluster_stat (rados Rados_zero) 0] /\
  (0 < 0 ->
     err = Some ("RADOS cluster stat: " +:+ strerror (scripted healthy) 0) /\
     r' = Rados_zero) /\
  (0 <= 0 ->
     err = None /\ rados r' = rados Rados_zero /\
     Size r' = kb stat_example /\ Used r' = kb_used stat_example /\
     Avail r' = kb_avail stat_example /\
     NObjects r' = num_objects stat_example).
Proof.
  assert (Hrange : is_cluster_stat stat_example).
  { unfold is_cluster_stat, is_uint64. simpl. lia. }
  split; [reflexivity |]. split; [exact Hrange |].
  exact (Stat_updates_atomically (scripted healthy) Rados_zero tt 0
           stat_example tt eq_refl Hrange).
Defined.

Lemma ListPools_entries_witness :
  ListPools_fuel (scripted healthy) 1 Rados_zero tt =
    (Some (["data"; "metadata"; "rbd"], None), tt,
     [call_pool_list 0 256 19]) /\
  exists buf,
    ListPools_loop (scripted healthy) 1 Rados_zero 256 tt =
      (Some (inl buf), tt, [call_pool_list 0 256 19]) /\
    let segs := bytes_Split buf Byte.x00 in
    bytes_Join segs Byte.x00 = buf /\
    Forall (fun seg => Byte.x00 ∉ seg) segs /\
    ["data"; "metadata"; "rbd"] =
      String.string_of_list_byte <$>
        filter (fun seg => length seg ≠ 0%nat) segs /\
    Forall (fun pool => pool ≠ EmptyString) ["data"; "metadata"; "rbd"] /\
    (NoDup ["data"; "metadata"; "rbd"] <->
     NoDup (filter (fun seg => length seg ≠ 0%nat) segs)).
Proof.
  split; [vm_compute; reflexivity |].
  apply (ListPools_entries (scripted healthy) 1 Rados_zero tt).
  vm_compute. reflexivity.
Defined.

(** C4 as the specification states it fails: when the native library
    lists a name twice, so does [ListPools]. *)
Lemma ListPools_keeps_duplicates :
  ListPools_fuel (scripted twice) 1 Rados_zero tt =
    (Some (["a"; "a"], None), tt, [call_pool_list 0 256 5]) /\
  ~ NoDup ["a"; "a"].
Proof.
  split; [vm_compute; reflexivity |].
  intros Hnodup. apply NoDup_cons in Hnodup as [Hnotin _].
  apply Hnotin. constructor.
Qed.

(** The runs of [Test_RadosNew]: [New] with the default configuration
    succeeds and [Release] on the result returns nil; [New] with a path
    that does not exist fails and gives no handle. *)
Example Test_RadosNew :
  New (scripted healthy) EmptyString tt =
    (Some {| rados := 4096; size := 1048576; used := 4096;
             avail := 1044480; nObjects := 7 |}, None, tt,
     [call_create 0 4096; call_conf_read_file 4096 None 0;
      call_connect 4096 0; call_cluster_stat 4096 0]) /\
  New (scripted healthy) "path that does not exist" tt =
    (None, Some "RADOS config: No such file or directory", tt,
     [call_create 0 4096;
      call_conf_read_file 4096 (Some "path that does not exist") (-2)]).
Proof. split; vm_compute; reflexivity. Qed.

(** A statistics fetch that fails: no handle, the error of [Stat], and the
    handle shut down last. *)
Example New_stat_fails :
  New (scripted stat_fails) EmptyString tt =
    (None, Some "RADOS cluster stat: Input/output error", tt,
     [call_create 0 4096; call_conf_read_file 4096 None 0;
      call_connect 4096 0; call_cluster_stat 4096 (-5);
      call_shutdown 4096]).
Proof. vm_compute. reflexivity. Qed.

(** 300 bytes of pool names: one retry, with a buffer of exactly 300. *)
Example ListPools_retries_once :
  (ListPools_fuel (scripted big_list) 2 Rados_zero tt).2 =
    [call_pool_list 0 256 300; call_pool_list 0 300 300] /\
  (ListPools_fuel (scripted big_list) 2 Rados_zero tt).1.1 =
    Some ([String.string_of_list_byte long_name], None).
Proof. split; vm_compute; reflexivity. Qed.

Example CreatePool_existing :
  CreatePool (scripted healthy) Rados_zero "rbd" tt =
    (Some "RADOS pool create rbd: File exists", tt,
     [call_pool_create 0 "rbd" (-17)]).
Proof. vm_compute. reflexivity. Qed.

(** * Further properties of the package *)

(** ** byteSliceToBuffer and strerror *)


Lemma wrap_C_int_range (z : Z) : is_C_int (wrap_C_int z).
Proof.
  unfold is_C_int, wrap_C_int, C_INT_MIN, C_INT_MAX.
  pose proof (Z.mod_pos_bound (z + 2 ^ 31) (2 ^ 32) ltac:(lia)). lia.
Qed.

(** X2.  [strerror] looks the text up at [-cerr], computed on a [C.int].  For
    every status above the smallest [C.int] that is the opposite number,
    so a negative status is looked up at a positive errno and negating
    twice gives the status back; at the smallest [C.int] the negation wraps
    and the text is looked up at that same negative number. *)
Theorem strerror_lookup {World} (lib : librados World) (cerr : Z) :
  is_C_int cerr ->
  is_C_int (neg_C_int cerr) /\
  neg_C_int (neg_C_int cerr) = cerr /\
  (cerr <> C_INT_MIN ->
     strerror lib cerr = c_strerror lib (- cerr) /\
     (cerr < 0 -> 0 < neg_C_int cerr)) /\
  (cerr = C_INT_MIN -> strerror lib cerr = c_strerror lib C_INT_MIN).
Proof.
  intros Hrange.
  split; [apply wrap_C_int_range |].
  destruct (decide (cerr = C_INT_MIN)) as [-> | Hne].
  - split; [reflexivity |].
    split; [intros Hcontra; congruence | intros _; reflexivity].
  - assert (Hneg : neg_C_int cerr = - cerr).
    { apply neg_C_int_exact. unfold is_C_int in Hrange. lia. }
    split.
    + rewrite Hneg. rewrite neg_C_int_exact; [lia |].
      unfold is_C_int, C_INT_MIN, C_INT_MAX in *. lia.
    + split; [| intros Heq; congruence].
      intros _. unfold strerror, GoString. rewrite Hneg.
      split; [reflexivity | lia].
Qed.

Lemma strerror_lookup_witness :
  is_C_int (-2) /\
  is_C_int (neg_C_int (-2)) /\
  neg_C_int (neg_C_int (-2)) = -2 /\
  (-2 <> C_INT_MIN ->
     strerror (scripted healthy) (-2) = c_strerror (scripted healthy) (- -2) /\
     (-2 < 0 -> 0 < neg_C_int (-2))) /\
  (-2 = C_INT_MIN ->
     strerror (scripted healthy) (-2) =
       c_strerror (scripted healthy) C_INT_MIN).
Proof.
  assert (Hrange : is_C_int (-2)).
  { unfold is_C_int, C_INT_MIN, C_INT_MAX. lia. }
  split; [exact Hrange |].
  exact (strerror_lookup (scripted healthy) (-2) Hrange).
Defined.

(** ** Parsing the pool list *)

Lemma bytes_Split_app (buf1 buf2 : list byte) (sep : byte) :
  bytes_Split (buf1 ++ sep :: buf2) sep =
    bytes_Split buf1 sep ++ bytes_Split buf2 sep.
Proof.
  induction buf1 as [| b buf1 IH].
  - cbn. destruct (Byte.eqb sep sep) eqn:Hsep; [reflexivity |].
    apply Byte.eqb_false in Hsep. congruence.
  - cbn [app bytes_Split]. rewrite IH.
    destruct (Byte.eqb b sep); [reflexivity |].
    destruct (bytes_Split_cons buf1 sep) as (seg & segs & ->).
    reflexivity.
Qed.

Lemma bytes_Split_whole (seg : list byte) (sep : byte) :
  sep ∉ seg -> bytes_Split seg sep = [seg].
Proof.
  induction seg as [| b seg IH]; intros Hsep; [reflexivity |].
  apply not_elem_of_cons in Hsep as [Hb Hseg].
  cbn [bytes_Split]. rewrite (IH Hseg).
  destruct (Byte.eqb b sep) eqn:Heq; [| reflexivity].
  apply Byte.byte_dec_bl in Heq. congruence.
Qed.

Lemma collect_pools_app (segs1 segs2 : list (list byte)) :
  collect_pools (segs1 ++ segs2) = collect_pools segs1 ++ collect_pools segs2.
Proof.
  rewrite !collect_pools_filter, filter_app, fmap_app. reflexivity.
Qed.

(** X3.  Parsing goes NUL by NUL: the entries of two buffers joined by a NUL
    byte are the entries of the first followed by those of the second. *)
Theorem parse_pools_app (buf1 buf2 : list byte) :
  parse_pools (buf1 ++ [Byte.x00] ++ buf2) =
    parse_pools buf1 ++ parse_pools buf2.
Proof.
  unfold parse_pools. cbn [app].
  rewrite bytes_Split_app. apply collect_pools_app.
Qed.

Lemma parse_pools_zeros (k : nat) :
  parse_pools (replicate k Byte.x00) = [].
Proof.
  induction k as [| k IH]; [reflexivity |].
  change (replicate (S k) Byte.x00) with ([] ++ [Byte.x00] ++ replicate k Byte.x00).
  rewrite parse_pools_app, IH. reflexivity.
Qed.

Lemma parse_pools_name (name : string) :
  valid_pool_name name ->
  parse_pools (String.list_byte_of_string name) = [name].
Proof.
  intros [Hne Hnul]. unfold parse_pools.
  rewrite bytes_Split_whole by exact Hnul.
  rewrite collect_pools_filter, filter_cons, filter_nil.
  destruct (decide (length (String.list_byte_of_string name) ≠ 0%nat))
    as [_ | Hlen].
  - cbn. rewrite String.string_of_list_byte_of_string. reflexivity.
  - exfalso. apply Hne.
    rewrite <- (String.string_of_list_byte_of_string name).
    destruct (String.list_byte_of_string name); [reflexivity |].
    cbn in Hlen. lia.
Qed.

Lemma parse_pools_body (names : list string) (k : nat) :
  Forall valid_pool_name names ->
  parse_pools (pool_list_body names ++ replicate k Byte.x00) = names.
Proof.
  intros Hvalid. induction Hvalid as [| name names Hname _ IH].
  - apply parse_pools_zeros.
  - unfold pool_list_body in *. rewrite fmap_cons. cbn [concat].
    rewrite <- !app_assoc.
    rewrite parse_pools_app, parse_pools_name, IH by exact Hname.
    reflexivity.
Qed.

Lemma c_store_make_bytes (n : Z) (written : list byte) :
  len written <= n ->
  c_store (make_bytes n) written =
    written ++ replicate (Z.to_nat n - length written) Byte.x00.
Proof.
  unfold len, c_store, make_bytes. intros Hfit.
  rewrite drop_replicate, length_replicate.
  apply take_ge. rewrite length_app, length_replicate. lia.
Qed.

(** X4.  Decoding inverts the native encoding.  When the blob of the pools
    [names] (each a non-empty name without NUL byte) is stored in a
    zero-filled buffer that has room for it, parsing the buffer gives
    [names] back, in order: the closing NUL and the unused zero bytes add
    no entry. *)
Theorem parse_pools_blob (names : list string) (bufSize : Z) :
  Forall valid_pool_name names ->
  len (pool_list_blob names) <= bufSize ->
  parse_pools (c_store (make_bytes bufSize) (pool_list_blob names)) = names.
Proof.
  intros Hvalid Hfit.
  rewrite c_store_make_bytes by exact Hfit.
  unfold pool_list_blob. rewrite <- app_assoc.
  change ([Byte.x00] ++ replicate ?k Byte.x00)
    with (replicate (S k) Byte.x00).
  apply parse_pools_body, Hvalid.
Qed.

Ltac solve_valid_pool_names :=
  repeat (apply List.Forall_cons; [| try apply List.Forall_nil]);
  (split; [discriminate | rewrite list_elem_of_In; cbn; intuition discriminate]).

Lemma three_pools_valid :
  Forall valid_pool_name ["data"; "metadata"; "rbd"].
Proof. solve_valid_pool_names. Qed.

Lemma parse_pools_blob_witness :
  Forall valid_pool_name ["data"; "metadata"; "rbd"] /\
  len (pool_list_blob ["data"; "metadata"; "rbd"]) <= 256 /\
  parse_pools
    (c_store (make_bytes 256) (pool_list_blob ["data"; "metadata"; "rbd"]))
    = ["data"; "metadata"; "rbd"].
Proof.
  assert (Hfit : len (pool_list_blob ["data"; "metadata"; "rbd"]) <= 256).
  { vm_compute. discriminate. }
  split; [exact three_pools_valid |]. split; [exact Hfit |].
  exact (parse_pools_blob ["data"; "metadata"; "rbd"] 256
           three_pools_valid Hfit).
Defined.

Lemma parse_pools_valid (buf : list byte) :
  Forall valid_pool_name (parse_pools buf).
Proof.
  unfold parse_pools. rewrite collect_pools_filter.
  apply Forall_fmap, Forall_forall. intros seg Hin.
  apply list_elem_of_filter in Hin as [Hlen Hseg]. cbn.
  split.
  - intros Hempty.
    apply (f_equal String.list_byte_of_string) in Hempty.
    rewrite String.list_byte_of_string_of_list_byte in Hempty.
    subst seg. apply Hlen. reflexivity.
  - rewrite String.list_byte_of_string_of_list_byte.
    pose proof (bytes_Split_no_sep buf Byte.x00) as Hsep.
    rewrite Forall_forall in Hsep. apply Hsep, Hseg.
Qed.

Section ListPoolsRuns.
Context {World : Type} (lib : librados World).

(** X5.  Whatever [ListPools] returns, each entry is a name the pool-list
    format can carry: it is not empty and holds no NUL byte; with an error
    there is no entry at all. *)
Theorem ListPools_names_valid (fuel : nat) (r : Rados) (w : World)
    (pools : list string) (err : error) (w' : World)
    (tr : list native_call) :
  ListPools_fuel lib fuel r w = (Some (pools, err), w', tr) ->
  Forall valid_pool_name pools /\ (is_Some err -> pools = []).
Proof.
  rewrite ListPools_fuel_run.
  destruct (ListPools_loop lib fuel r 256 w) as [[[lres |] w2] tr2] eqn:Hloop;
    [| intros [=]].
  destruct lres as [buf | err'].
  - cbn. intros [= <- <- _ _].
    split; [apply parse_pools_valid | intros [msg [=]]].
  - cbn. intros [= <- _ _ _]. split; [constructor | reflexivity].
Qed.

(** The calls of the loop started with a buffer of [bufSize] bytes. *)
Lemma ListPools_loop_calls (r : Rados) (fuel : nat) :
  forall bufSize w,
    0 < bufSize ->
    let tr := (ListPools_loop lib fuel r bufSize w).2 in
    (length tr <= fuel)%nat /\
    Forall (fun ev => exists size status,
              ev = call_pool_list (rados r) size status /\ bufSize <= size) tr /\
    (forall size, head tr ≫= pool_list_size = Some size -> size = bufSize) /\
    StronglySorted (fun ev1 ev2 =>
        exists s1 s2, pool_list_size ev1 = Some s1 /\
                      pool_list_size ev2 = Some s2 /\ s1 < s2) tr.
Proof.
  induction fuel as [| fuel IH]; intros bufSize w Hpos.
  - cbn. split; [lia |]. split; [constructor |].
    split; [intros size [=] | constructor].
  - cbn zeta. rewrite ListPools_loop_step by exact Hpos.
    destruct (rados_pool_list lib (rados r) bufSize w) as [[c written] w1].
    cbn zeta.
    assert (Hone :
      (length [call_pool_list (rados r) bufSize c] <= S fuel)%nat /\
      Forall (fun ev => exists size status,
                ev = call_pool_list (rados r) size status /\ bufSize <= size)
             [call_pool_list (rados r) bufSize c] /\
      (forall size,
         head [call_pool_list (rados r) bufSize c] ≫= pool_list_size
           = Some size -> size = bufSize) /\
      StronglySorted (fun ev1 ev2 =>
          exists s1 s2, pool_list_size ev1 = Some s1 /\
                        pool_list_size ev2 = Some s2 /\ s1 < s2)
        [call_pool_list (rados r) bufSize c]).
    { split; [cbn; lia |].
      split.
      { constructor; [| constructor].
        eexists _, _. split; [reflexivity | lia]. }
      split; [intros size [= <-]; reflexivity |].
      repeat constructor. }
    destruct (c <? 0); [exact Hone |].
    destruct (Z.ltb_spec bufSize c) as [Hgrow | Hfit]; [| exact Hone].
    clear Hone.
    specialize (IH c w1 ltac:(lia)). cbn zeta in IH.
    destruct (ListPools_loop lib fuel r c w1) as [[res w2] tr].
    cbn [snd] in IH |- *.
    destruct IH as (Hlen & Hall & _ & Hsorted).
    split; [cbn; lia |].
    split.
    { constructor; [eexists _, _; split; [reflexivity | lia] |].
      eapply Forall_impl; [exact Hall |].
      intros ev (size & status & -> & Hsize).
      eexists _, _. split; [reflexivity | lia]. }
    split; [intros size [= <-]; reflexivity |].
    constructor; [exact Hsorted |].
    eapply Forall_impl; [exact Hall |].
    intros ev (size & status & -> & Hsize).
    eexists _, _. split; [reflexivity |]. split; [reflexivity | lia].
Qed.

(** X6.  The native calls of [ListPools], finished or not: nothing but
    [rados_pool_list] on the handle of [r], at most one call per iteration,
    the first with a buffer of 256 bytes, every later one with a strictly
    larger buffer than the calls before it. *)
Theorem ListPools_calls (fuel : nat) (r : Rados) (w : World) :
  let tr := (ListPools_fuel lib fuel r w).2 in
  (length tr <= fuel)%nat /\
  Forall (fun ev => exists size status,
            ev = call_pool_list (rados r) size status /\ 256 <= size) tr /\
  (forall size, head tr ≫= pool_list_size = Some size -> size = 256) /\
  StronglySorted (fun ev1 ev2 =>
      exists s1 s2, pool_list_size ev1 = Some s1 /\
                    pool_list_size ev2 = Some s2 /\ s1 < s2) tr.
Proof.
  cbn zeta. rewrite ListPools_fuel_run.
  pose proof (ListPools_loop_calls r fuel 256 w ltac:(lia)) as Hloop.
  cbn zeta in Hloop.
  destruct (ListPools_loop lib fuel r 256 w) as [[res w'] tr].
  cbn [snd] in Hloop |- *.
  destruct Hloop as (Hlen & Hall & Hhead & Hsorted).
  repeat split; assumption.
Qed.

(** The loop ends whenever the native counts are [C.int]s: the buffer
    grows with every retry and no [C.int] count exceeds a buffer of
    [C_INT_MAX] bytes. *)
Lemma ListPools_loop_ends (r : Rados) :
  pool_list_C_int lib ->
  forall (k : nat) bufSize w,
    0 < bufSize ->
    C_INT_MAX - bufSize < Z.of_nat k ->
    exists lres w' tr,
      ListPools_loop lib (S k) r bufSize w = (Some lres, w', tr) /\
      (length tr <= S k)%nat.
Proof.
  intros Hcint. induction k as [| k IH]; intros bufSize w Hpos Hroom;
    rewrite ListPools_loop_step by exact Hpos;
    pose proof (Hcint (rados r) bufSize w) as Hrange;
    destruct (rados_pool_list lib (rados r) bufSize w) as [[c written] w1];
    cbn [fst] in Hrange; unfold is_C_int in Hrange; cbn zeta.
  - destruct (c <? 0); [eexists _, _, _; split; [reflexivity | cbn; lia] |].
    destruct (Z.ltb_spec bufSize c); [lia |].
    eexists _, _, _; split; [reflexivity | cbn; lia].
  - destruct (c <? 0); [eexists _, _, _; split; [reflexivity | cbn; lia] |].
    destruct (Z.ltb_spec bufSize c) as [Hgrow | Hfit].
    + destruct (IH c w1 ltac:(lia) ltac:(lia)) as (lres & w' & tr & Hrun & Hlen).
      rewrite Hrun. eexists _, _, _; split; [reflexivity | cbn; lia].
    + eexists _, _, _; split; [reflexivity | cbn; lia].
Qed.

(** X7.  Although the loop has no counter, [ListPools] always returns when the
    native call does and its counts are [C.int]s: the buffer sizes grow
    strictly and are bounded by the largest [C.int], so the loop makes at
    most [C_INT_MAX - 254] native calls. *)
Theorem ListPools_returns_for_C_int (r : Rados) (w : World) :
  pool_list_C_int lib ->
  exists res w' tr,
    ListPools_returns lib r w res w' tr /\
    Z.of_nat (length tr) <= C_INT_MAX - 254.
Proof.
  intros Hcint.
  destruct (ListPools_loop_ends r Hcint (Z.to_nat (C_INT_MAX - 255)) 256 w)
    as (lres & w' & tr & Hrun & Hlen).
  { lia. }
  { unfold C_INT_MAX. lia. }
  exists (ListPools_finish lres), w', tr. split.
  - eexists. rewrite ListPools_fuel_run, Hrun. reflexivity.
  - unfold C_INT_MAX in *. lia.
Qed.

(** X8.  Against a native library that lists the pools [names], [ListPools]
    returns exactly [names], in order and without error, after one native
    call when their blob fits 256 bytes and after two otherwise; whatever
    the first, too small, buffer received is not part of the result. *)
Theorem ListPools_lists_pools (r : Rados) (names : list string)
    (P : World -> Prop) (w : World) :
  Forall valid_pool_name names ->
  serves_pool_list lib (rados r) names P ->
  P w ->
  exists w' tr,
    P w' /\
    length tr = (if len (pool_list_blob names) <=? 256 then 1%nat else 2%nat) /\
    forall fuel, (2 <= fuel)%nat ->
      ListPools_fuel lib fuel r w = (Some (names, None), w', tr).
Proof.
  intros Hvalid Hserves HP.
  assert (Hblob : 0 < len (pool_list_blob names)).
  { unfold len, pool_list_blob. rewrite length_app. cbn. lia. }
  pose proof (Hserves w 256 HP) as Hfirst.
  destruct (rados_pool_list lib (rados r) 256 w)
    as [[c1 written1] w1] eqn:Hcall1.
  destruct Hfirst as (Hc1 & Hwritten1 & HP1).
  destruct (Z.leb_spec (len (pool_list_blob names)) 256) as [Hfit | Hbig].
  - exists w1, [call_pool_list (rados r) 256 c1].
    split; [exact HP1 |]. split; [reflexivity |].
    intros [| [| fuel]] Hfuel; try lia.
    rewrite ListPools_fuel_run, ListPools_loop_step, Hcall1 by lia.
    cbn zeta.
    destruct (Z.ltb_spec c1 0); [lia |].
    destruct (Z.ltb_spec 256 c1); [lia |].
    cbn. rewrite Hwritten1 by lia.
    rewrite parse_pools_blob by (assumption || lia). reflexivity.
  - pose proof (Hserves w1 c1 HP1) as Hsecond.
    destruct (rados_pool_list lib (rados r) c1 w1)
      as [[c2 written2] w2] eqn:Hcall2.
    destruct Hsecond as (Hc2 & Hwritten2 & HP2).
    exists w2, [call_pool_list (rados r) 256 c1; call_pool_list (rados r) c1 c2].
    split; [exact HP2 |]. split; [reflexivity |].
    intros [| [| fuel]] Hfuel; try lia.
    rewrite ListPools_fuel_run, ListPools_loop_step, Hcall1 by lia.
    cbn zeta.
    destruct (Z.ltb_spec c1 0); [lia |].
    destruct (Z.ltb_spec 256 c1); [| lia].
    rewrite ListPools_loop_step, Hcall2 by lia.
    cbn zeta.
    destruct (Z.ltb_spec c2 0); [lia |].
    destruct (Z.ltb_spec c1 c2); [lia |].
    cbn. rewrite Hwritten2 by lia.
    rewrite parse_pools_blob by (assumption || lia). reflexivity.
Qed.

End ListPoolsRuns.

Lemma ListPools_names_valid_witness :
  ListPools_fuel (scripted healthy) 1 Rados_zero tt =
    (Some (["data"; "metadata"; "rbd"], None), tt,
     [call_pool_list 0 256 19]) /\
  Forall valid_pool_name ["data"; "metadata"; "rbd"] /\
  (is_Some (@None string) -> ["data"; "metadata"; "rbd"] = []).
Proof.
  split; [vm_compute; reflexivity |].
  apply (ListPools_names_valid (scripted healthy) 1 Rados_zero tt
           ["data"; "metadata"; "rbd"] None tt [call_pool_list 0 256 19]).
  vm_compute. reflexivity.
Defined.

Lemma healthy_pool_list_C_int : pool_list_C_int (scripted healthy).
Proof.
  intros h size w. cbn. unfold is_C_int, C_INT_MIN, C_INT_MAX. lia.
Qed.

Lemma ListPools_returns_for_C_int_witness :
  pool_list_C_int (scripted healthy) /\
  exists res w' tr,
    ListPools_returns (scripted healthy) Rados_zero tt res w' tr /\
    Z.of_nat (length tr) <= C_INT_MAX - 254.
Proof.
  split; [exact healthy_pool_list_C_int |].
  exact (ListPools_returns_for_C_int (scripted healthy) Rados_zero tt
           healthy_pool_list_C_int).
Defined.

Lemma long_name_valid :
  Forall valid_pool_name [String.string_of_list_byte long_name].
Proof.
  constructor; [| constructor]. split.
  - intros Hempty.
    apply (f_equal String.list_byte_of_string) in Hempty.
    rewrite String.list_byte_of_string_of_list_byte in Hempty.
    discriminate Hempty.
  - rewrite String.list_byte_of_string_of_list_byte. unfold long_name.
    intros Hin. apply elem_of_replicate in Hin as [Hx _]. discriminate Hx.
Qed.

Lemma big_list_serves :
  serves_pool_list (scripted big_list) (rados Rados_zero)
    [String.string_of_list_byte long_name] (fun _ => True).
Proof.
  intros w size _.
  cbn [rados_pool_list scripted on_pool_list big_list].
  split; [vm_compute; reflexivity |]. split; [| exact I].
  intros Hfit. destruct (Z.leb_spec 300 size); [| lia].
  vm_compute. reflexivity.
Qed.

Lemma ListPools_lists_pools_witness :
  Forall valid_pool_name [String.string_of_list_byte long_name] /\
  serves_pool_list (scripted big_list) (rados Rados_zero)
    [String.string_of_list_byte long_name] (fun _ => True) /\
  True /\
  exists w' tr,
    True /\
    length tr =
      (if len (pool_list_blob [String.string_of_list_byte long_name]) <=? 256
       then 1%nat else 2%nat) /\
    forall fuel, (2 <= fuel)%nat ->
      ListPools_fuel (scripted big_list) fuel Rados_zero tt =
        (Some ([String.string_of_list_byte long_name], None), w', tr).
Proof.
  split; [exact long_name_valid |]. split; [exact big_list_serves |].
  split; [exact I |].
  exact (ListPools_lists_pools (scripted big_list) Rados_zero
           [String.string_of_list_byte long_name] (fun _ => True) tt
           long_name_valid big_list_serves I).
Defined.

(** ** New and the pool administration, call by call *)

Section NativeCalls.
Context {World : Type} (lib : librados World).


(** X10.  [New] shuts the native handle down in one case only, a failed
    statistics fetch.  When the configuration load or the connect fails,
    the handle that [rados_create] had stored with a non-negative status
    is not shut down: [New] returns without any [rados_shutdown]. *)
Theorem New_shutdown_only_after_stat (configFile : string) (w : World) :
  let tr := (New lib configFile w).2 in
  ((exists h, In (call_shutdown h) tr) <->
   (exists h c, In (call_cluster_stat h c) tr /\ c < 0)) /\
  (forall ev c,
     In ev tr ->
     (exists h path, ev = call_conf_read_file h path c) \/
     (exists h, ev = call_connect h c) ->
     c < 0 ->
     (exists c0, In (call_create c0 (handle_of ev)) tr /\ 0 <= c0) /\
     (forall h', ~ In (call_shutdown h') tr)).
Proof.
  cbn zeta. rewrite New_run.
  destruct (rados_create lib w) as [[c1 h] w1]. cbn zeta.
  case_status.
  { cbn [snd]. split.
    - split.
      + intros (h' & [[=] | []]).
      + intros (h' & c & [[=] | []] & _).
    - intros ev c [<- | []] [(h' & p & [=]) | (h' & [=])]. }
  destruct (rados_conf_read_file lib h _ w1) as [c2 w2].
  case_status.
  { cbn [snd]. split.
    - split.
      + intros (h' & [[=] | [[=] | []]]).
      + intros (h' & c & [[=] | [[=] | []]] & _).
    - intros ev c [<- | [<- | []]] [(h' & p & [=]) | (h' & [=])] Hc.
      subst. split.
      + exists c1. split; [left; reflexivity | lia].
      + intros h'' [[=] | [[=] | []]]. }
  destruct (rados_connect lib h w2) as [c3 w3].
  case_status.
  { cbn [snd]. split.
    - split.
      + intros (h' & [[=] | [[=] | [[=] | []]]]).
      + intros (h' & c & [[=] | [[=] | [[=] | []]]] & _).
    - intros ev c [<- | [<- | [<- | []]]] [(h' & p & [=]) | (h' & [=])] Hc;
        subst; try lia.
      split.
      + exists c1. split; [left; reflexivity | lia].
      + intros h'' [[=] | [[=] | [[=] | []]]]. }
  destruct (rados_cluster_stat lib h w3) as [[c4 cstat] w4].
  case_status.
  { cbn [snd]. split.
    - split.
      + intros _. exists h, c4. split; [| assumption].
        do 3 right. left. reflexivity.
      + intros _. exists h. do 4 right. left. reflexivity.
    - intros ev c [<- | [<- | [<- | [<- | [<- | []]]]]]
        [(h' & p & [=]) | (h' & [=])] Hc; subst; lia. }
  cbn [snd]. split.
  - split.
    + intros (h' & [[=] | [[=] | [[=] | [[=] | []]]]]).
    + intros (h' & c & [[=] | [[=] | [[=] | [[= _ <-] | []]]]] & Hc). lia.
  - intros ev c [<- | [<- | [<- | [<- | []]]]]
      [(h' & p & [=]) | (h' & [=])] Hc; subst; lia.
Qed.


End NativeCalls.

(** ** The test of New *)

Section TestRuns.
Context {World : Type} (lib : librados World).
Context (Sprintf : string -> list string -> string).

Lemma New_handle_or_error (configFile : string) (w : World) :
  let '(r, err, _, _) := New lib configFile w in
  match r, err with
  | Some _, None => True
  | None, Some _ => True
  | _, _ => False
  end.
Proof.
  rewrite New_run.
  destruct (rados_create lib w) as [[c1 h] w1]. cbn zeta.
  destruct (c1 <? 0); [exact I |].
  destruct (rados_conf_read_file lib h _ w1) as [c2 w2].
  destruct (c2 <? 0); [exact I |].
  destruct (rados_connect lib h w2) as [c3 w3].
  destruct (c3 <? 0); [exact I |].
  destruct (rados_cluster_stat lib h w3) as [[c4 cstat] w4].
  destruct (c4 <? 0); exact I.
Qed.

(** X12.  [Test_RadosNew] never calls [Release] through a nil handle.  When
    [New] with the default configuration fails, the test is stopped by
    [fatalOnError], marked failed, with no native call of its own.
    Otherwise it releases the handle, calls [New] with the path that does
    not exist and returns; it then passes exactly when this second [New]
    gave no handle, and a handle that came back all the same is released
    as well. *)
Theorem Test_RadosNew_verdict (w : World) :
  let '(out, t, w', tr) :=
    rados_test.Test_RadosNew lib Sprintf rados_test.T_zero w in
  let '(r1, e1, w1, tr1) := New lib EmptyString w in
  out <> rados_test.NilPanic /\
  match r1 with
  | None =>
      out = rados_test.Goexit /\ rados_test.Failed t = true /\
      w' = w1 /\ tr = tr1
  | Some r =>
      let w2 := rados_shutdown lib (rados r) w1 in
      let '(r2, e2, w3, tr2) := New lib "path that does not exist" w2 in
      out = rados_test.Returned tt /\
      (rados_test.Failed t = false <-> r2 = None) /\
      tr = tr1 ++ call_shutdown (rados r) :: tr2 ++
           match r2 with
           | Some r' => [call_shutdown (rados r')]
           | None => []
           end /\
      w' = match r2 with
           | Some r' => rados_shutdown lib (rados r') w3
           | None => w3
           end
  end.
Proof.
  unfold rados_test.Test_RadosNew.
  unfold mbind, rados_test.TM_bind. unfold rados_test.call at 1.
  pose proof (New_handle_or_error EmptyString w) as Hfirst.
  destruct (New lib EmptyString w) as [[[r1 e1] w1] tr1].
  destruct r1 as [r |], e1 as [text1 |]; try contradiction;
    unfold rados_test.call, rados_test.on_handle, rados_test.fatalOnError,
      rados_test.t_Fatalf, rados_test.t_Errorf, Release;
    unfold mret, rados_test.TM_ret; unfold_M; unfold_native; cbn -[New].
  - pose proof (New_handle_or_error "path that does not exist"
                  (rados_shutdown lib (rados r) w1)) as Hsecond.
    destruct (New lib "path that does not exist"
                (rados_shutdown lib (rados r) w1)) as [[[r2 e2] w3] tr2].
    destruct r2 as [r' |], e2 as [text2 |]; try contradiction; cbn.
    + split; [discriminate |]. split; [reflexivity |].
      split; [split; discriminate |].
      rewrite ?app_nil_r. split; reflexivity.
    + split; [discriminate |]. split; [reflexivity |].
      split; [split; reflexivity |].
      rewrite ?app_nil_r. split; reflexivity.
  - split; [discriminate |]. rewrite ?app_nil_r. repeat split.
Qed.

End TestRuns.
